(** * Risk score models of [pkrs.py]: a shallow embedding

    The development follows [src/pkrs/pkrs.py] class by class:
    [RiskScore] (the linear weighted sum), [MultiRiskScore] (the nested
    weight tree and its priority-ordered lookup), [oram2016] and
    [sharp2019] (the two published scoring policies).

    Conventions.
    - Python floats are idealised as real numbers ([R]); rounding, [inf]
      and [nan] are outside the model.
    - A Python call either returns or raises: fallible code returns a
      [result], the raised exception being named by its class.
    - A Python [dict] is insertion ordered and the code iterates over it,
      so dicts are association lists with the update discipline of
      [dict.__setitem__] (overwrite in place, else append at the end).
    - Logging has no effect on any returned value and is left out. *)

From Stdlib Require Import Reals Lra Lia List String Ascii Bool Arith ZArith.
From Stdlib Require Import DecimalString.
Import ListNotations.

Local Open Scope R_scope.

(** ** Exceptions and results *)

Inductive exn : Type :=
| ValueError
| AssertionError
| AttributeError
| IndexError
| TypeError
| RecursionError
| SystemExit.

Inductive result (A : Type) : Type :=
| Ok (a : A)
| Raise (e : exn).

Arguments Ok {A} a.
Arguments Raise {A} e.

Definition bind {A B : Type} (c : result A) (k : A -> result B) : result B :=
  match c with
  | Ok a => k a
  | Raise e => Raise e
  end.

Declare Scope py_scope.
Delimit Scope py_scope with py.
Notation "x <- c ;; k" := (bind c (fun x => k))
  (at level 61, c at next level, right associativity) : py_scope.
Local Open Scope py_scope.

Definition is_ok {A : Type} (c : result A) : bool :=
  match c with Ok _ => true | Raise _ => false end.

Definition from_option {A : Type} (d : A) (o : option A) : A :=
  match o with Some a => a | None => d end.

(** ** Insertion-ordered dictionaries *)

Section OrderedDict.
Variables K V : Type.
Variable K_eq_dec : forall x y : K, {x = y} + {x <> y}.

Definition odict : Type := list (K * V).

Definition od_keys (d : odict) : list K := map fst d.

(** [d.get(k)] *)
Fixpoint od_get (d : odict) (k : K) : option V :=
  match d with
  | [] => None
  | (k', v) :: d' => if K_eq_dec k k' then Some v else od_get d' k
  end.

(** [d[k] = v]: an existing key keeps its position, a new key goes last. *)
Fixpoint od_set (d : odict) (k : K) (v : V) : odict :=
  match d with
  | [] => [(k, v)]
  | (k', v') :: d' =>
      if K_eq_dec k k' then (k', v) :: d' else (k', v') :: od_set d' k v
  end.

(** [k in d] *)
Definition od_mem (d : odict) (k : K) : bool :=
  match od_get d k with Some _ => true | None => false end.

(** [dict(items)], also the dict comprehension [{k: v for ...}]. *)
Definition od_of_list (items : list (K * V)) : odict :=
  fold_left (fun d kv => od_set d (fst kv) (snd kv)) items [].

Lemma od_get_set_same d k v : od_get (od_set d k v) k = Some v.
Proof.
  induction d as [|[k' v'] d IH]; simpl.
  - destruct (K_eq_dec k k); congruence.
  - destruct (K_eq_dec k k') as [E|NE]; simpl.
    + destruct (K_eq_dec k k'); congruence.
    + destruct (K_eq_dec k k'); [contradiction | exact IH].
Qed.

Lemma od_get_set_other d k k0 v : k0 <> k -> od_get (od_set d k v) k0 = od_get d k0.
Proof.
  intros NE. induction d as [|[k' v'] d IH]; simpl.
  - destruct (K_eq_dec k0 k); congruence.
  - destruct (K_eq_dec k k') as [E|NE']; simpl.
    + subst k'. destruct (K_eq_dec k0 k); congruence.
    + destruct (K_eq_dec k0 k'); [reflexivity | exact IH].
Qed.

Lemma od_get_None d k : od_get d k = None <-> ~ In k (od_keys d).
Proof.
  induction d as [|[k' v'] d IH]; simpl.
  - tauto.
  - destruct (K_eq_dec k k') as [E|NE].
    + split; [discriminate | intros H; exfalso; apply H; left; congruence].
    + rewrite IH. split; [intros H [E|HI]; [congruence | tauto] | tauto].
Qed.

Lemma od_get_Some_In d k v : od_get d k = Some v -> In (k, v) d.
Proof.
  induction d as [|[k' v'] d IH]; simpl; [discriminate|].
  destruct (K_eq_dec k k') as [E|NE]; intros H.
  - left. congruence.
  - right. auto.
Qed.

(** Assignment never reorders: the key list is unchanged when the key
    exists and grows by one at the end otherwise. *)
Lemma od_keys_set d k v :
  od_keys (od_set d k v) = if od_mem d k then od_keys d else od_keys d ++ [k].
Proof.
  unfold od_mem. induction d as [|[k' v'] d IH]; simpl; [reflexivity|].
  destruct (K_eq_dec k k') as [E|NE]; simpl; [reflexivity|].
  rewrite IH. destruct (od_get d k); reflexivity.
Qed.

Lemma od_set_Forall (P : K * V -> Prop) d k v :
  Forall P d -> P (k, v) -> Forall P (od_set d k v).
Proof.
  intros Hd Hkv. induction Hd as [|[k' v'] d Hx Hd IH]; simpl.
  - constructor; [exact Hkv | constructor].
  - destruct (K_eq_dec k k') as [E|NE].
    + subst k'. constructor; assumption.
    + constructor; assumption.
Qed.

Lemma od_keys_NoDup_set d k v : NoDup (od_keys d) -> NoDup (od_keys (od_set d k v)).
Proof.
  intros ND. rewrite od_keys_set. unfold od_mem.
  destruct (od_get d k) eqn:G; [exact ND|].
  apply od_get_None in G.
  apply NoDup_rev in ND. rewrite <- (rev_involutive (od_keys d ++ [k])).
  apply NoDup_rev. rewrite rev_app_distr. simpl. constructor; [|exact ND].
  rewrite <- in_rev. exact G.
Qed.

Lemma od_of_list_NoDup items : NoDup (od_keys (od_of_list items)).
Proof.
  unfold od_of_list.
  assert (G : forall d, NoDup (od_keys d) ->
              NoDup (od_keys (fold_left (fun d kv => od_set d (fst kv) (snd kv)) items d))).
  { induction items as [|kv items IH]; intros d ND; simpl; [exact ND|].
    apply IH. apply od_keys_NoDup_set. exact ND. }
  apply G. constructor.
Qed.

(** The value a key holds after a run of assignments is the one assigned
    last. *)
Definition last_assigned (items : list (K * V)) (k : K) : option V :=
  match find (fun kv => if K_eq_dec k (fst kv) then true else false) (rev items) with
  | Some kv => Some (snd kv)
  | None => None
  end.

Lemma od_get_fold_set items : forall d k,
  od_get (fold_left (fun d kv => od_set d (fst kv) (snd kv)) items d) k =
  match last_assigned items k with
  | Some v => Some v
  | None => od_get d k
  end.
Proof.
  unfold last_assigned.
  induction items as [|[k1 v1] items IH]; intros d k; simpl; [reflexivity|].
  rewrite IH. clear IH.
  set (p := fun kv : K * V => if K_eq_dec k (fst kv) then true else false).
  destruct (find p (rev items)) as [kv|] eqn:F.
  - assert (F' : find p (rev items ++ [(k1, v1)]) = Some kv).
    { clear -F. induction (rev items) as [|x l IH]; simpl in *; [discriminate|].
      destruct (p x); [exact F | auto]. }
    rewrite F'. reflexivity.
  - assert (F' : find p (rev items ++ [(k1, v1)]) = find p [(k1, v1)]).
    { clear -F. induction (rev items) as [|x l IH]; simpl in *; [reflexivity|].
      destruct (p x); [discriminate | auto]. }
    rewrite F'. simpl. unfold p at 1. simpl.
    destruct (K_eq_dec k k1) as [E|NE].
    + subst k1. apply od_get_set_same.
    + apply od_get_set_other. exact NE.
Qed.

Lemma od_get_of_list items k : od_get (od_of_list items) k = last_assigned items k.
Proof.
  unfold od_of_list. rewrite od_get_fold_set.
  destruct (last_assigned items k); reflexivity.
Qed.
End OrderedDict.

Arguments od_keys {K V} d.
Arguments od_get {K V} K_eq_dec d k.
Arguments od_set {K V} K_eq_dec d k v.
Arguments od_mem {K V} K_eq_dec d k.
Arguments od_of_list {K V} K_eq_dec items.
Arguments last_assigned {K V} K_eq_dec items k.

(** ** Real-number helpers *)

(** [sum(xs)] *)
Definition Rsum (xs : list R) : R := fold_right Rplus 0 xs.

Lemma fold_left_Rplus (xs : list R) : forall acc, fold_left Rplus xs acc = acc + Rsum xs.
Proof.
  induction xs as [|x xs IH]; intros acc; simpl.
  - lra.
  - rewrite IH. lra.
Qed.

Lemma Rlt_dec_true (x : R) (A : Type) (a b : A) :
  0 < x -> (if Rlt_dec 0 x then a else b) = a.
Proof. intros H. destruct (Rlt_dec 0 x); [reflexivity | contradiction]. Qed.

Lemma Rlt_dec_false (x : R) (A : Type) (a b : A) :
  ~ 0 < x -> (if Rlt_dec 0 x then a else b) = b.
Proof. intros H. destruct (Rlt_dec 0 x); [contradiction | reflexivity]. Qed.

(** Truth value of a float: [bool(x)] is [x != 0]. *)
Definition truthy (x : R) : bool := if Req_dec_T x 0 then false else true.

Lemma truthy_true x : x <> 0 -> truthy x = true.
Proof. unfold truthy. destruct (Req_dec_T x 0); [contradiction | reflexivity]. Qed.

Lemma truthy_false x : x = 0 -> truthy x = false.
Proof. unfold truthy. destruct (Req_dec_T x 0); [reflexivity | contradiction]. Qed.

Lemma truthy_iff x : truthy x = true <-> x <> 0.
Proof.
  unfold truthy. destruct (Req_dec_T x 0); split; intros; congruence.
Qed.

(** ** Strings, rows of the weights files, and Python builtins *)

Local Open Scope string_scope.
Local Open Scope list_scope.

(** [s.split(sep)] and [re.split] for separators that are single
    characters: the pieces between separators, empty pieces included. *)
Fixpoint split_on (sep : ascii -> bool) (s : string) : list string :=
  match s with
  | EmptyString => [EmptyString]
  | String c s' =>
      if sep c then EmptyString :: split_on sep s'
      else match split_on sep s' with
           | [] => [String c EmptyString]
           | w :: ws => String c w :: ws
           end
  end.

Definition is_colon (c : ascii) : bool := Ascii.eqb c ":".
Definition is_colon_or_underscore (c : ascii) : bool :=
  Ascii.eqb c ":" || Ascii.eqb c "_".

(** [l[i]] *)
Definition index {A : Type} (l : list A) (i : nat) : result A :=
  match nth_error l i with
  | Some a => Ok a
  | None => Raise IndexError
  end.

(** [str(i)] for a non-negative [int]. *)
Definition str_of_nat (i : nat) : string := NilZero.string_of_uint (Nat.to_uint i).

(** One line of a column-based weights file: a mapping from column names
    to the text of the cell. *)
Definition Row : Type := list (string * string).

(** [risk.get(name)] *)
Definition row_get (risk : Row) (name : string) : option string :=
  od_get string_dec risk name.

(** [risk.get(name, default)] with a [str] default *)
Definition row_get_str (risk : Row) (name default : string) : string :=
  from_option default (row_get risk name).

(** Truth value of [risk.get(name)]: [None] and the empty string are false. *)
Definition row_truthy (risk : Row) (name : string) : bool :=
  match row_get risk name with
  | Some s => negb (String.eqb s "")
  | None => false
  end.

(** A value that is either the text of a cell or a float already. *)
Inductive pyval : Type :=
| VStr (s : string)
| VFloat (x : R).

(** The builtins whose behaviour the code relies on and that are given
    here by their interface: the parsers [float(str)] and [int(str)]
    ([None] stands for [ValueError]) and the interpreter's recursion
    limit. *)
Class Python : Type := {
  float_of_str : string -> option R;
  int_of_str : string -> option Z;
  recursion_limit : nat
}.

Section Builtins.
Context {Py : Python}.

(** [float(v)] *)
Definition float (v : pyval) : result R :=
  match v with
  | VFloat x => Ok x
  | VStr s => match float_of_str s with
              | Some x => Ok x
              | None => Raise ValueError
              end
  end.

(** [int(s)] *)
Definition int (s : string) : result Z :=
  match int_of_str s with
  | Some z => Ok z
  | None => Raise ValueError
  end.

(** [math.log(x)]: a domain error outside the positive reals. *)
Definition math_log (x : R) : result R :=
  if Rlt_dec 0 x then Ok (ln x) else Raise ValueError.

(** [risk.get(name, default)] with a float default *)
Definition row_get_val (risk : Row) (name : string) (default : pyval) : pyval :=
  match row_get risk name with
  | Some s => VStr s
  | None => default
  end.

(** The expression shared by [ReadRisk] and both [nested_read]s:
    [risk.get("BETA", math.log(float(risk.get("ODDSRATIO", 1))))].
    Python evaluates the default argument before the call, so the
    odds ratio is parsed and its logarithm taken whether or not a
    [BETA] column exists. *)
Definition get_beta (risk : Row) : result pyval :=
  odds <- float (row_get_val risk "ODDSRATIO" (VFloat 1)) ;;
  lg <- math_log odds ;;
  Ok (row_get_val risk "BETA" (VFloat lg)).
End Builtins.

(** ** The interface of [pksnp] *)

(** Modelled from the spec: the classes [pksnp.Allele] and
    [pksnp.GenoType] are not part of the sources.  A locus identity is a
    comparable, hashable key (chromosome, position and either an allele
    symbol or a genotype pair), two identities being equal iff all
    components match; the core only uses equality, hashing and
    membership.  The constructors are given by their interface: they
    return the identity of the object built or raise. *)
Class Pksnp : Type := {
  AlleleId : Type;
  GenoId : Type;
  AlleleId_eq_dec : forall x y : AlleleId, {x = y} + {x <> y};
  GenoId_eq_dec : forall x y : GenoId, {x = y} + {x <> y};
  (** [pksnp.Allele(CHROM=str, POS=int, allele=str, BETA=float)] *)
  Allele_of_weight : string -> Z -> string -> result AlleleId;
  (** [pksnp.Allele(ID=, CHROM=, POS=, allele=)] *)
  Allele_of_multi : option string -> string -> string -> string -> result AlleleId;
  (** [pksnp.GenoType(ID=, CHROM=, POS=, genotype=)] *)
  GenoType_of_multi : option string -> string -> string -> list string -> result GenoId
}.

(** A genotype object of the subject data: its identity, the result of
    [getAlleles()] (each allele with its [dosage]) and the result of
    [getAlleles(True)]. *)
Record GenoType {PS : Pksnp} : Type := mkGenoType {
  geno_id : GenoId;
  getAlleles : list (AlleleId * R);
  getAllelesTrue : list AlleleId
}.

(** [gtdict]: variant identifier to genotype object. *)
Definition GtDict {PS : Pksnp} : Type := odict string GenoType.

(** [gtdict.values()] *)
Definition values {PS : Pksnp} (gtdict : GtDict) : list GenoType := map snd gtdict.

(** Facts about [get_beta] used throughout. *)
Section GetBeta.
Context {Py : Python}.

Lemma math_log_pos x : 0 < x -> math_log x = Ok (ln x).
Proof. intros H. unfold math_log. apply Rlt_dec_true. exact H. Qed.

Lemma math_log_nonpos x : ~ 0 < x -> math_log x = Raise ValueError.
Proof. intros H. unfold math_log. apply Rlt_dec_false. exact H. Qed.

Lemma get_beta_no_odds risk :
  row_get risk "ODDSRATIO" = None ->
  get_beta risk = Ok (row_get_val risk "BETA" (VFloat 0)).
Proof.
  intros HO. unfold get_beta, row_get_val at 1. rewrite HO. simpl.
  rewrite math_log_pos by lra. simpl. rewrite ln_1. reflexivity.
Qed.

Lemma get_beta_odds risk o x :
  row_get risk "ODDSRATIO" = Some o -> float_of_str o = Some x -> 0 < x ->
  get_beta risk = Ok (row_get_val risk "BETA" (VFloat (ln x))).
Proof.
  intros HO HF Hx. unfold get_beta, row_get_val at 1. rewrite HO. simpl.
  rewrite HF. simpl. rewrite math_log_pos by exact Hx. reflexivity.
Qed.

Lemma get_beta_bad_odds risk o :
  row_get risk "ODDSRATIO" = Some o ->
  (float_of_str o = None \/ exists x, float_of_str o = Some x /\ ~ 0 < x) ->
  get_beta risk = Raise ValueError.
Proof.
  intros HO [HF|[x [HF Hx]]]; unfold get_beta, row_get_val at 1; rewrite HO; simpl;
    rewrite HF; simpl; [reflexivity|].
  rewrite math_log_nonpos by exact Hx. reflexivity.
Qed.
End GetBeta.

(** ** The object handed to [ReadRisk] *)

(** [ReadRisk] iterates over [riskiter], whose lines are the argument of
    the functions below, and its handler of [AttributeError] calls
    [riskiter.get("name", ...)] to name the file.  The kind of
    [riskiter] is defined outside this repository ([click.CSVFile] of
    the command line), so whether it has a [get] method is a parameter
    of the model; a plain list, which is what [PGSCatalog] hands over,
    has none, and the call then raises [AttributeError] itself. *)
Class Riskiter : Type := {
  riskiter_has_get : bool
}.

(** * class RiskScore *)

Module RiskScore.
Section WithEnv.
Context {Py : Python} {PS : Pksnp} {RI : Riskiter}.

(** A risk entry: the [pksnp.Allele] built from one weights line, as
    its identity and its [BETA]. *)
Definition Risk : Type := (AlleleId * R)%type.

Record model : Type := mkModel {
  risks : list Risk;
  beta : odict AlleleId R;
  N : R
}.

(** The two [except] clauses of [ReadRisk].  A [ValueError] ends the
    run through [sys.exit]; so does an [AttributeError] when [riskiter]
    has a [get] method, while without one the handler raises
    [AttributeError] before it reaches [sys.exit]. *)
Definition exit_on_error {A : Type} (c : result A) : result A :=
  match c with
  | Raise AttributeError =>
      if riskiter_has_get then Raise SystemExit else Raise AttributeError
  | Raise ValueError => Raise SystemExit
  | other => other
  end.

(** The body of the loop of [ReadRisk], for one line. *)
Definition read_risk (risk : Row) : result Risk :=
  chrom0 <- index (split_on is_colon (row_get_str risk "POSID" ":")) 0 ;;
  let chrom := row_get_str risk "CHROM" chrom0 in
  pos0 <- index (split_on is_colon_or_underscore (row_get_str risk "POSID" ":")) 1 ;;
  let pos := row_get_str risk "POS" pos0 in
  beta <- get_beta risk ;;
  exit_on_error (
    p <- int pos ;;
    let allele := from_option "None" (row_get risk "ALLELE") in
    b <- float beta ;;
    a <- Allele_of_weight chrom p allele ;;
    Ok (a, b)).

Fixpoint ReadRisk (riskiter : list Row) : result (list Risk) :=
  match riskiter with
  | [] => Ok []
  | risk :: rest =>
      r <- read_risk risk ;;
      rs <- ReadRisk rest ;;
      Ok (r :: rs)
  end.

(** [RiskScore.__init__(risks, N)].  The optional [snps] argument only
    triggers [validate], which logs warnings and changes nothing. *)
Definition init (riskiter : list Row) (N_override : option R) : result model :=
  rs <- ReadRisk riskiter ;;
  let n := match N_override with
           | None => INR (List.length rs)
           | Some x => x
           end in
  if Rlt_dec 0 n
  then Ok {| risks := rs; beta := od_of_list AlleleId_eq_dec rs; N := n |}
  else Raise AssertionError.

(** The alleles of a subject, flattened over all genotypes, in order. *)
Definition subject_dosages (gtdict : GtDict) : list (AlleleId * R) :=
  flat_map getAlleles (values gtdict).

(** [RiskScore.calc] *)
Definition calc (m : model) (gtdict : GtDict) : R :=
  let gtlist := values gtdict in
  let alleles := od_of_list AlleleId_eq_dec (flat_map getAlleles gtlist) in
  let wsum :=
    fold_left
      (fun wsum item =>
         wsum + snd item * from_option 0 (od_get AlleleId_eq_dec alleles (fst item)))
      (beta m) 0 in
  wsum / N m.

(** The dosage a subject carries for a locus identity: that of the last
    allele with this identity, 0 when there is none. *)
Definition dosage_of (gtdict : GtDict) (id : AlleleId) : R :=
  from_option 0 (last_assigned AlleleId_eq_dec (subject_dosages gtdict) id).

Lemma fold_left_weighted (f : Risk -> R) (l : list Risk) : forall acc,
  fold_left (fun wsum item => wsum + f item) l acc = acc + Rsum (map f l).
Proof.
  induction l as [|x l IH]; intros acc; simpl.
  - lra.
  - rewrite IH. lra.
Qed.

Lemma last_assigned_absent (items : list (AlleleId * R)) id :
  ~ In id (map fst items) -> last_assigned AlleleId_eq_dec items id = None.
Proof.
  intros NI. unfold last_assigned.
  destruct (find _ (rev items)) as [kv|] eqn:F; [|reflexivity].
  apply find_some in F. destruct F as [HI HE].
  destruct (AlleleId_eq_dec id (fst kv)) as [E|NE]; [|discriminate].
  exfalso. apply NI. subst id. apply in_map. apply in_rev. exact HI.
Qed.

Lemma last_assigned_last (pre post : list (AlleleId * R)) id x :
  ~ In id (map fst post) ->
  last_assigned AlleleId_eq_dec (pre ++ (id, x) :: post) id = Some x.
Proof.
  intros NI. unfold last_assigned.
  rewrite rev_app_distr. simpl. rewrite <- app_assoc. simpl.
  assert (NI' : ~ In id (map fst (rev post))).
  { intros HI. apply NI. rewrite map_rev in HI. apply in_rev in HI. exact HI. }
  revert NI'. generalize (rev post) as l. induction l as [|[k v] l IH]; simpl; intros NI'.
  - destruct (AlleleId_eq_dec id id); [reflexivity | congruence].
  - destruct (AlleleId_eq_dec id k) as [E|NE]; [exfalso; apply NI'; left; congruence|].
    apply IH. tauto.
Qed.

Lemma ReadRisk_length riskiter : forall rs,
  ReadRisk riskiter = Ok rs -> List.length rs = List.length riskiter.
Proof.
  induction riskiter as [|risk rest IH]; simpl; intros rs H.
  - inversion H. reflexivity.
  - destruct (read_risk risk) as [r|e]; simpl in H; [|discriminate].
    destruct (ReadRisk rest) as [rs'|e]; simpl in H; [|discriminate].
    inversion H. simpl. f_equal. apply IH. reflexivity.
Qed.

(** What the weight of a line resolves to when the line is well formed. *)
Definition read_beta (risk : Row) : result R := v <- get_beta risk ;; float v.

Lemma read_beta_BETA risk s b :
  row_get risk "ODDSRATIO" = None ->
  row_get risk "BETA" = Some s -> float_of_str s = Some b ->
  read_beta risk = Ok b.
Proof.
  intros HO HB HF. unfold read_beta. rewrite get_beta_no_odds by exact HO.
  unfold row_get_val. rewrite HB. simpl. rewrite HF. reflexivity.
Qed.

Lemma read_beta_ODDSRATIO risk o x :
  row_get risk "BETA" = None ->
  row_get risk "ODDSRATIO" = Some o -> float_of_str o = Some x -> 0 < x ->
  read_beta risk = Ok (ln x).
Proof.
  intros HB HO HF Hx. unfold read_beta. rewrite (get_beta_odds _ _ _ HO HF Hx).
  unfold row_get_val. rewrite HB. reflexivity.
Qed.

(** A constructed model holds every locus identity once in its table. *)
Lemma init_beta_NoDup riskiter N_override m :
  init riskiter N_override = Ok m -> NoDup (od_keys (beta m)).
Proof.
  unfold init. destruct (ReadRisk riskiter) as [rs|e]; simpl; [|discriminate].
  destruct (Rlt_dec 0 _); [|discriminate].
  intros H. inversion H. simpl. apply od_of_list_NoDup.
Qed.

(** C2. [RiskScore.calc] is the sum, over the entries of the table of
    weights, of the weight times the dosage the subject carries for the
    locus identity, divided by the denominator; the dosage is 0 for an
    identity none of the subject's alleles has, and that of the allele
    seen last when several alleles of the subject have the identity. *)
Theorem calc_weighted_sum (m : model) (gtdict : GtDict) :
  calc m gtdict =
    Rsum (map (fun item => snd item * dosage_of gtdict (fst item)) (beta m)) / N m /\
  (forall id, ~ In id (map fst (subject_dosages gtdict)) -> dosage_of gtdict id = 0) /\
  (forall pre id x post,
      subject_dosages gtdict = pre ++ (id, x) :: post ->
      ~ In id (map fst post) ->
      dosage_of gtdict id = x).
Proof.
  split; [|split].
  - unfold calc. rewrite fold_left_weighted. f_equal. rewrite Rplus_0_l.
    f_equal. apply map_ext. intros [id w]. simpl.
    unfold dosage_of, subject_dosages. rewrite od_get_of_list. reflexivity.
  - intros id NI. unfold dosage_of. rewrite last_assigned_absent by exact NI. reflexivity.
  - intros pre id x post E NI. unfold dosage_of. rewrite E.
    rewrite last_assigned_last by exact NI. reflexivity.
Qed.

Lemma init_ok riskiter N_override rs :
  ReadRisk riskiter = Ok rs ->
  0 < match N_override with None => INR (List.length rs) | Some x => x end ->
  init riskiter N_override =
    Ok {| risks := rs;
          beta := od_of_list AlleleId_eq_dec rs;
          N := match N_override with None => INR (List.length rs) | Some x => x end |}.
Proof.
  intros HR Hn. unfold init. rewrite HR. simpl. apply Rlt_dec_true. exact Hn.
Qed.

(** C8. Once the weights are read, the denominator of the model is the
    number of risk entries, one per line, unless an override is given,
    which then replaces it; the construction fails, on its assertion,
    exactly when that denominator is not greater than 0. *)
Theorem init_sets_N (riskiter : list Row) (N_override : option R) (rs : list Risk) :
  ReadRisk riskiter = Ok rs ->
  List.length rs = List.length riskiter /\
  (0 < match N_override with None => INR (List.length rs) | Some x => x end ->
   init riskiter N_override =
     Ok {| risks := rs;
           beta := od_of_list AlleleId_eq_dec rs;
           N := match N_override with None => INR (List.length rs) | Some x => x end |}) /\
  (~ 0 < match N_override with None => INR (List.length rs) | Some x => x end ->
   init riskiter N_override = Raise AssertionError) /\
  (is_ok (init riskiter N_override) = false <->
   ~ 0 < match N_override with None => INR (List.length rs) | Some x => x end) /\
  (forall m, init riskiter N_override = Ok m ->
     N m = match N_override with None => INR (List.length rs) | Some x => x end /\
     0 < N m).
Proof.
  intros HR. split; [exact (ReadRisk_length _ _ HR)|].
  unfold init. rewrite HR. simpl.
  set (n := match N_override with None => INR (List.length rs) | Some x => x end).
  destruct (Rlt_dec 0 n) as [Hn|Hn]; simpl.
  - split; [reflexivity|]. split; [contradiction|]. split.
    + split; [discriminate | contradiction].
    + intros m H. inversion H. simpl. split; [reflexivity | exact Hn].
  - split; [contradiction|]. split; [reflexivity|]. split.
    + split; [intros _; exact Hn | reflexivity].
    + intros m H. discriminate.
Qed.

Lemma read_risk_bad_odds risk o :
  row_get risk "POSID" = None ->
  row_get risk "ODDSRATIO" = Some o ->
  (float_of_str o = None \/ exists x, float_of_str o = Some x /\ ~ 0 < x) ->
  read_risk risk = Raise ValueError.
Proof.
  intros HP HO HB. unfold read_risk, row_get_str. rewrite HP. simpl.
  rewrite (get_beta_bad_odds _ _ HO HB). reflexivity.
Qed.

(** C7, against the code.  A line that gives its weight in [BETA] and
    whose [ODDSRATIO] is no number or no positive number is not read
    with that weight: the logarithm of the odds ratio is taken before
    [BETA] is looked at, and the [ValueError] it raises, outside the
    [try], ends [ReadRisk] and the construction of the model. *)
Theorem ReadRisk_takes_log_first (risk : Row) (rest : list Row) (N_override : option R)
  (s o : string) (b : R) :
  row_get risk "BETA" = Some s -> float_of_str s = Some b ->
  row_get risk "POSID" = None ->
  row_get risk "ODDSRATIO" = Some o ->
  (float_of_str o = None \/ exists x, float_of_str o = Some x /\ ~ 0 < x) ->
  read_beta risk = Raise ValueError /\
  ReadRisk (risk :: rest) = Raise ValueError /\
  init (risk :: rest) N_override = Raise ValueError.
Proof.
  intros _ _ HP HO HB. split; [|split].
  - unfold read_beta. rewrite (get_beta_bad_odds _ _ HO HB). reflexivity.
  - simpl. rewrite (read_risk_bad_odds _ _ HP HO HB). reflexivity.
  - unfold init. simpl. rewrite (read_risk_bad_odds _ _ HP HO HB). reflexivity.
Qed.

End WithEnv.
End RiskScore.

(** * class MultiRiskScore *)

Module MultiRiskScore.
Section WithEnv.
Context {Py : Python} {PS : Pksnp} {RI : Riskiter}.

(** Modelled from the spec: the keys of the nested dict are locus
    identities, of a genotype or of an allele; an identity of one kind
    never equals one of the other kind. *)
Inductive Key : Type :=
| KGeno (g : GenoId)
| KAllele (a : AlleleId).

Definition Key_eq_dec (x y : Key) : {x = y} + {x <> y}.
Proof.
  decide equality; [apply GenoId_eq_dec | apply AlleleId_eq_dec].
Defined.

(** The nested dict: a weight (a float) or a dict from keys to nested
    dicts. *)
Local Unset Elimination Schemes.
Inductive tree : Type :=
| Leaf (beta : R)
| Node (children : list (Key * tree)).
Local Set Elimination Schemes.

(** [isinstance(nested_dict, dict)] *)
Definition is_dict (t : tree) : bool :=
  match t with Node _ => true | Leaf _ => false end.

(** Induction over nested dicts, with the hypothesis for every child. *)
Fixpoint tree_induction (P : tree -> Prop)
  (HL : forall b, P (Leaf b))
  (HN : forall d, Forall (fun kc => P (snd kc)) d -> P (Node d))
  (t : tree) : P t :=
  match t with
  | Leaf b => HL b
  | Node d =>
      HN d ((fix children (d : list (Key * tree)) : Forall (fun kc => P (snd kc)) d :=
               match d with
               | [] => Forall_nil _
               | kc :: d' => Forall_cons kc (tree_induction P HL HN (snd kc)) (children d')
               end) d)
  end.

(** [gt == haplo] for a genotype object of the subject and a key. *)
Definition key_matches (haplo : Key) (gt : GenoType) : bool :=
  if Key_eq_dec haplo (KGeno (geno_id gt)) then true else false.

(** [haplo in subject] *)
Definition in_subject (haplo : Key) (subject : list GenoType) : bool :=
  existsb (key_matches haplo) subject.

(** [[gt for gt in subject if gt != haplo]] *)
Definition exclude (haplo : Key) (subject : list GenoType) : list GenoType :=
  filter (fun gt => negb (key_matches haplo gt)) subject.

(** [MultiRiskScore.nested_lookup].  The loop runs over the keys in
    insertion order; [nested_dict[haplo]] is the child stored with the
    key. *)
Fixpoint nested_lookup (nested_dict : tree) (subject : list GenoType) : R :=
  match nested_dict with
  | Leaf beta => beta
  | Node d =>
      (fix loop (d : list (Key * tree)) : R :=
         match d with
         | [] => 0
         | (haplo, child) :: rest =>
             if in_subject haplo subject
             then nested_lookup child (exclude haplo subject)
             else loop rest
         end) d
  end.

(** The first three statements of [nested_read]: the columns of locus
    [i], with the [POSID_i] defaults evaluated first. *)
Definition locus_fields (risk : Row) (i : nat) : result (string * string * option string) :=
  let posid := row_get_str risk ("POSID_" ++ str_of_nat i)%string ":" in
  chrom0 <- index (split_on is_colon posid) 0 ;;
  pos0 <- index (split_on is_colon posid) 1 ;;
  Ok (row_get_str risk ("CHROM_" ++ str_of_nat i)%string chrom0,
      row_get_str risk ("POS_" ++ str_of_nat i)%string pos0,
      row_get risk ("ID_" ++ str_of_nat i)%string).

(** What reading locus [i] of a line comes to: a key to descend with, the
    end of the chain (the constructor raised [AssertionError] or
    [AttributeError], which the [except] clause catches), or an exception
    that leaves [nested_read]. *)
Inductive step : Type :=
| Descend (k : Key)
| Terminal
| Crash (e : exn).

Definition read_step (make_key : option string -> string -> string -> Row -> nat -> result Key)
  (risk : Row) (i : nat) : step :=
  match locus_fields risk i with
  | Raise e => Crash e
  | Ok (chrom, pos, myid) =>
      match make_key myid chrom pos risk i with
      | Ok k => Descend k
      | Raise AssertionError => Terminal
      | Raise AttributeError => Terminal
      | Raise e => Crash e
      end
  end.

(** The constructor call of [MultiRiskScore.ReadMultiRisk.nested_read]. *)
Definition geno_key (myid : option string) (chrom pos : string) (risk : Row) (i : nat)
  : result Key :=
  g <- GenoType_of_multi myid chrom pos
         (split_on is_colon (row_get_str risk ("GENOTYPE_" ++ str_of_nat i)%string "")) ;;
  Ok (KGeno g).

(** The body of the [except] clause. *)
Definition terminal (risk : Row) (nested_dict : tree) : result tree :=
  v <- get_beta risk ;;
  beta <- float v ;;
  if truthy beta && is_dict nested_dict then Ok (Leaf beta) else Raise AssertionError.

(** [nested_read(risk, nested_dict, i)].  The two copies in the source
    differ in the constructor only, here [make_key].  [fuel] is the
    number of nested calls the interpreter still allows. *)
Fixpoint nested_read (make_key : option string -> string -> string -> Row -> nat -> result Key)
  (fuel : nat) (risk : Row) (nested_dict : tree) (i : nat) : result tree :=
  match fuel with
  | O => Raise RecursionError
  | S fuel' =>
      match read_step make_key risk i with
      | Crash e => Raise e
      | Terminal => terminal risk nested_dict
      | Descend gtype =>
          match nested_dict with
          | Leaf _ => Raise AttributeError
          | Node d =>
              sub <- nested_read make_key fuel' risk
                       (from_option (Node []) (od_get Key_eq_dec d gtype)) (S i) ;;
              Ok (Node (od_set Key_eq_dec d gtype sub))
          end
      end
  end.

(** The loop of [ReadMultiRisk]: lines whose [column] is empty or absent
    are passed over. *)
Fixpoint read_lines (make_key : option string -> string -> string -> Row -> nat -> result Key)
  (column : string) (risk_iter : list Row) (nested_dict : tree) : result tree :=
  match risk_iter with
  | [] => Ok nested_dict
  | risk :: rest =>
      if row_truthy risk column
      then nd <- nested_read make_key recursion_limit risk nested_dict 1 ;;
           read_lines make_key column rest nd
      else read_lines make_key column rest nested_dict
  end.

(** [MultiRiskScore.ReadMultiRisk] *)
Definition ReadMultiRisk (risk_iter : list Row) : result tree :=
  read_lines geno_key "GENOTYPE_1" risk_iter (Node []).

Record model : Type := mkModel {
  base : RiskScore.model;
  multi : tree
}.

(** The denominator [self.N] of a multi-locus model. *)
Definition N (m : model) : R := RiskScore.N (base m).

(** [self.N = n] *)
Definition set_N (m : model) (n : R) : model :=
  {| base := {| RiskScore.risks := RiskScore.risks (base m);
                RiskScore.beta := RiskScore.beta (base m);
                RiskScore.N := n |};
     multi := multi m |}.

(** [MultiRiskScore.__init__], with the [ReadMultiRisk] of the class of
    the object. *)
Definition init_with (read_multi : list Row -> result tree)
  (risks multirisks : list Row) (N_override : option R) : result model :=
  b <- RiskScore.init risks N_override ;;
  t <- read_multi multirisks ;;
  Ok {| base := b; multi := t |}.

Definition init : list Row -> list Row -> option R -> result model :=
  init_with ReadMultiRisk.

(** [MultiRiskScore.calc] *)
Definition calc (m : model) (gtdict : GtDict) : R :=
  let wsum := RiskScore.calc (base m) gtdict in
  let mrs := nested_lookup (multi m) (values gtdict) in
  if truthy mrs then wsum + mrs / N m else wsum.

(** A dict holding one chain of keys that ends in a weight. *)
Definition chain (keys : list Key) (beta : R) : tree :=
  fold_right (fun k t => Node [(k, t)]) (Leaf beta) keys.

(** ** The lookup *)

Lemma nested_lookup_cons haplo child rest subject :
  nested_lookup (Node ((haplo, child) :: rest)) subject =
  if in_subject haplo subject
  then nested_lookup child (exclude haplo subject)
  else nested_lookup (Node rest) subject.
Proof. reflexivity. Qed.

Lemma key_matches_refl gt : key_matches (KGeno (geno_id gt)) gt = true.
Proof.
  unfold key_matches.
  destruct (Key_eq_dec (KGeno (geno_id gt)) (KGeno (geno_id gt))); [reflexivity | congruence].
Qed.

Lemma in_subject_exclude_same haplo subject :
  in_subject haplo (exclude haplo subject) = false.
Proof.
  unfold in_subject, exclude. induction subject as [|gt subject IH]; simpl; [reflexivity|].
  destruct (key_matches haplo gt) eqn:E; simpl; [exact IH|].
  rewrite E. exact IH.
Qed.

Lemma in_subject_exclude_other haplo k subject :
  k <> haplo -> in_subject k (exclude haplo subject) = in_subject k subject.
Proof.
  intros NE. unfold in_subject, exclude.
  induction subject as [|gt subject IH]; simpl; [reflexivity|].
  destruct (key_matches haplo gt) eqn:E; simpl.
  - rewrite IH. unfold key_matches in *.
    destruct (Key_eq_dec haplo (KGeno (geno_id gt))); [|discriminate].
    destruct (Key_eq_dec k (KGeno (geno_id gt))); [congruence | reflexivity].
  - rewrite IH. reflexivity.
Qed.

Lemma in_subject_exclude_false haplo k subject :
  in_subject k subject = false -> in_subject k (exclude haplo subject) = false.
Proof.
  intros H. destruct (Key_eq_dec k haplo) as [E|NE].
  - subst. apply in_subject_exclude_same.
  - rewrite in_subject_exclude_other by exact NE. exact H.
Qed.

Lemma in_subject_allele a subject : in_subject (KAllele a) subject = false.
Proof.
  unfold in_subject. induction subject as [|gt subject IH]; simpl; [reflexivity|].
  rewrite IH. unfold key_matches.
  destruct (Key_eq_dec (KAllele a) (KGeno (geno_id gt))); [discriminate | reflexivity].
Qed.

Lemma nested_lookup_no_match d subject :
  (forall k, In k (od_keys d) -> in_subject k subject = false) ->
  nested_lookup (Node d) subject = 0.
Proof.
  induction d as [|[k c] d IH]; intros H; [reflexivity|].
  rewrite nested_lookup_cons. rewrite (H k) by (left; reflexivity).
  apply IH. intros k' Hk'. apply H. right. exact Hk'.
Qed.

Lemma nested_lookup_skip pre d subject :
  (forall k, In k (od_keys pre) -> in_subject k subject = false) ->
  nested_lookup (Node (pre ++ d)) subject = nested_lookup (Node d) subject.
Proof.
  induction pre as [|[k c] pre IH]; intros H; [reflexivity|].
  simpl app. rewrite nested_lookup_cons. rewrite (H k) by (left; reflexivity).
  apply IH. intros k' Hk'. apply H. right. exact Hk'.
Qed.

Lemma od_get_first pre haplo (child : tree) post :
  ~ In haplo (od_keys pre) ->
  od_get Key_eq_dec (pre ++ (haplo, child) :: post) haplo = Some child.
Proof.
  induction pre as [|[k c] pre IH]; simpl; intros NI.
  - destruct (Key_eq_dec haplo haplo); [reflexivity | congruence].
  - destruct (Key_eq_dec haplo k) as [E|NE]; [exfalso; apply NI; left; congruence|].
    apply IH. tauto.
Qed.

Lemma nested_lookup_chain_gap pre k post beta : forall subject,
  in_subject k subject = false ->
  nested_lookup (chain (pre ++ k :: post) beta) subject = 0.
Proof.
  induction pre as [|k0 pre IH]; intros subject H; simpl.
  - rewrite H. reflexivity.
  - destruct (in_subject k0 subject); [|reflexivity].
    apply IH. apply in_subject_exclude_false. exact H.
Qed.

(** C1. [MultiRiskScore.nested_lookup]: a leaf gives its weight; in a dict
    the first key, in insertion order, that is among the subject's
    genotypes decides: the result is the lookup in the child stored with
    that key, [nested_dict[haplo]], for the subject without the matched
    genotype, which the child can therefore not match again while every
    other key matches as before; when no key of the dict is among the
    subject's genotypes the result is 0, as it is for a chain one of
    whose keys the subject lacks, whatever prefix of it the subject
    matches. *)
Theorem nested_lookup_first_match :
  (forall beta subject, nested_lookup (Leaf beta) subject = beta) /\
  (forall pre haplo child post subject,
      (forall k, In k (od_keys pre) -> in_subject k subject = false) ->
      in_subject haplo subject = true ->
      nested_lookup (Node (pre ++ (haplo, child) :: post)) subject =
        nested_lookup child (exclude haplo subject) /\
      od_get Key_eq_dec (pre ++ (haplo, child) :: post) haplo = Some child /\
      in_subject haplo (exclude haplo subject) = false /\
      (forall k, k <> haplo ->
         in_subject k (exclude haplo subject) = in_subject k subject)) /\
  (forall d subject,
      (forall k, In k (od_keys d) -> in_subject k subject = false) ->
      nested_lookup (Node d) subject = 0) /\
  (forall pre k post beta subject,
      in_subject k subject = false ->
      nested_lookup (chain (pre ++ k :: post) beta) subject = 0).
Proof.
  split; [reflexivity|]. split; [|split].
  - intros pre haplo child post subject Hpre Hin. repeat split.
    + rewrite nested_lookup_skip by exact Hpre.
      rewrite nested_lookup_cons, Hin. reflexivity.
    + apply od_get_first. intros HI. apply Hpre in HI. congruence.
    + apply in_subject_exclude_same.
    + intros k NE. apply in_subject_exclude_other. exact NE.
  - exact nested_lookup_no_match.
  - intros. apply nested_lookup_chain_gap. assumption.
Qed.

Lemma calc_split (m : model) (gtdict : GtDict) :
  calc m gtdict =
  RiskScore.calc (base m) gtdict + nested_lookup (multi m) (values gtdict) / N m.
Proof.
  unfold calc. destruct (truthy _) eqn:T; [reflexivity|].
  assert (Z : nested_lookup (multi m) (values gtdict) = 0).
  { destruct (Req_dec_T (nested_lookup (multi m) (values gtdict)) 0) as [E|NE];
      [exact E | rewrite truthy_true in T by exact NE; discriminate]. }
  rewrite Z. unfold Rdiv. rewrite Rmult_0_l. lra.
Qed.

(** C3. [MultiRiskScore.calc] is the linear score of the subject plus the
    result of the lookup over all genotypes of the subject divided by
    the denominator. *)
Theorem calc_linear_plus_match (m : model) (gtdict : GtDict) :
  calc m gtdict =
  RiskScore.calc (base m) gtdict + nested_lookup (multi m) (values gtdict) / N m.
Proof. exact (calc_split m gtdict). Qed.

(** ** Building the nested dict *)

(** The keys a line yields from locus [i] on, up to the first locus
    without one. *)
Fixpoint reads_chain (make_key : option string -> string -> string -> Row -> nat -> result Key)
  (risk : Row) (i : nat) (keys : list Key) : Prop :=
  match keys with
  | [] => read_step make_key risk i = Terminal
  | k :: keys' =>
      read_step make_key risk i = Descend k /\ reads_chain make_key risk (S i) keys'
  end.

(** No weight stands on the way of a chain: every node the chain passes
    through, and the one it ends in if it exists, is a dict. *)
Fixpoint path_clear (keys : list Key) (t : tree) : bool :=
  match t with
  | Leaf _ => false
  | Node d =>
      match keys with
      | [] => true
      | k :: keys' =>
          match od_get Key_eq_dec d k with
          | None => true
          | Some c => path_clear keys' c
          end
      end
  end.

(** The dict after a chain ending in [beta] went in. *)
Fixpoint insert_chain (keys : list Key) (beta : R) (t : tree) : tree :=
  match keys with
  | [] => Leaf beta
  | k :: keys' =>
      match t with
      | Leaf _ => t
      | Node d =>
          Node (od_set Key_eq_dec d k
                  (insert_chain keys' beta (from_option (Node []) (od_get Key_eq_dec d k))))
      end
  end.

(** [t[k1][k2]...[kn]] *)
Fixpoint follow (keys : list Key) (t : tree) : option tree :=
  match keys with
  | [] => Some t
  | k :: keys' =>
      match t with
      | Leaf _ => None
      | Node d =>
          match od_get Key_eq_dec d k with
          | Some c => follow keys' c
          | None => None
          end
      end
  end.

Lemma terminal_read_beta risk nested_dict b :
  RiskScore.read_beta risk = Ok b ->
  terminal risk nested_dict =
  if truthy b && is_dict nested_dict then Ok (Leaf b) else Raise AssertionError.
Proof.
  unfold RiskScore.read_beta, terminal. intros H.
  destruct (get_beta risk) as [v|e]; simpl in *; [|discriminate].
  rewrite H. reflexivity.
Qed.

Lemma path_clear_empty keys : path_clear keys (Node []) = true.
Proof. destruct keys; reflexivity. Qed.

Lemma path_clear_child k keys d :
  path_clear (k :: keys) (Node d) = true ->
  path_clear keys (from_option (Node []) (od_get Key_eq_dec d k)) = true.
Proof.
  simpl. destruct (od_get Key_eq_dec d k) as [c|]; simpl; intros H.
  - exact H.
  - apply path_clear_empty.
Qed.

Lemma path_clear_is_dict keys t : path_clear keys t = true -> is_dict t = true.
Proof. destruct t; [destruct keys; discriminate | reflexivity]. Qed.

Lemma nested_read_inserts make_key risk b :
  RiskScore.read_beta risk = Ok b -> b <> 0 ->
  forall keys fuel t i,
    reads_chain make_key risk i keys ->
    path_clear keys t = true ->
    (List.length keys < fuel)%nat ->
    nested_read make_key fuel risk t i = Ok (insert_chain keys b t).
Proof.
  intros Hb NZ. induction keys as [|k keys IH]; intros fuel t i HR HP HF.
  - destruct fuel as [|fuel]; [simpl in HF; lia|].
    simpl in HR. simpl. rewrite HR.
    rewrite (terminal_read_beta _ t _ Hb), truthy_true by exact NZ.
    rewrite (path_clear_is_dict _ _ HP). reflexivity.
  - destruct fuel as [|fuel]; [simpl in HF; lia|].
    destruct HR as [HS HR]. simpl nested_read. rewrite HS.
    destruct t as [x|d]; [discriminate|].
    rewrite (IH fuel _ (S i) HR (path_clear_child _ _ _ HP)) by (simpl in HF; lia).
    reflexivity.
Qed.


Lemma follow_insert_chain b : forall keys t,
  path_clear keys t = true -> follow keys (insert_chain keys b t) = Some (Leaf b).
Proof.
  induction keys as [|k keys IH]; intros t HP; [reflexivity|].
  destruct t as [x|d]; [discriminate|].
  simpl. rewrite od_get_set_same. apply IH. apply path_clear_child. exact HP.
Qed.

(** Keys that were in a dict before a chain went in keep their place, and
    the first key of the chain, when new, goes last. *)
Lemma insert_chain_keys k keys b d :
  exists d', insert_chain (k :: keys) b (Node d) = Node d' /\
             od_keys d' = if od_mem Key_eq_dec d k then od_keys d else od_keys d ++ [k].
Proof.
  simpl. eexists. split; [reflexivity|]. apply od_keys_set.
Qed.

Lemma read_lines_inserts make_key column risk rest t keys b :
  row_truthy risk column = true ->
  reads_chain make_key risk 1 keys ->
  path_clear keys t = true ->
  (List.length keys < recursion_limit)%nat ->
  RiskScore.read_beta risk = Ok b -> b <> 0 ->
  read_lines make_key column (risk :: rest) t =
  read_lines make_key column rest (insert_chain keys b t).
Proof.
  intros HT HR HP HF Hb NZ. simpl read_lines. rewrite HT.
  rewrite (nested_read_inserts make_key risk b Hb NZ keys _ _ _ HR HP HF). reflexivity.
Qed.


Lemma read_lines_skips make_key column risk rest t :
  row_truthy risk column = false ->
  read_lines make_key column (risk :: rest) t = read_lines make_key column rest t.
Proof. intros HT. simpl. rewrite HT. reflexivity. Qed.





End WithEnv.
End MultiRiskScore.

(** * class oram2016 *)

Module oram2016.
Section WithEnv.
Context {Py : Python} {PS : Pksnp} {RI : Riskiter}.

(** [oram2016.__init__]: the constructor of [MultiRiskScore], then
    [self.N = 2 * (self.N + 1)]. *)
Definition init (risks multirisks : list Row) (N_override : option R)
  : result MultiRiskScore.model :=
  m <- MultiRiskScore.init risks multirisks N_override ;;
  Ok (MultiRiskScore.set_N m (2 * (MultiRiskScore.N m + 1))).

(** The class defines nothing else: [calc] and [nested_lookup] are those
    of [MultiRiskScore]. *)
Definition calc : MultiRiskScore.model -> GtDict -> R := MultiRiskScore.calc.

(** C6. A constructed [oram2016] model has the denominator
    [2 * (N + 1)], where [N] is the denominator the linear model
    computed first, the number of risk entries or the override; it keeps
    the nested dict of [MultiRiskScore], and its score is the linear
    score plus the result of the first-match lookup of [MultiRiskScore]
    over the subject's genotypes, divided by that denominator.  The
    construction succeeds whenever that of [MultiRiskScore] does. *)
Theorem init_denominator (risks multirisks : list Row) (N_override : option R)
  (m : MultiRiskScore.model) :
  init risks multirisks N_override = Ok m ->
  exists rs t,
    RiskScore.ReadRisk risks = Ok rs /\
    MultiRiskScore.ReadMultiRisk multirisks = Ok t /\
    MultiRiskScore.init risks multirisks N_override =
      Ok (MultiRiskScore.set_N m
            (match N_override with None => INR (List.length rs) | Some x => x end)) /\
    MultiRiskScore.N m =
      2 * ((match N_override with None => INR (List.length rs) | Some x => x end) + 1) /\
    MultiRiskScore.multi m = t /\
    forall gtdict,
      calc m gtdict =
      RiskScore.calc (MultiRiskScore.base m) gtdict +
      MultiRiskScore.nested_lookup t (values gtdict) / MultiRiskScore.N m.
Proof.
  unfold init, MultiRiskScore.init, MultiRiskScore.init_with, RiskScore.init.
  intros H.
  destruct (RiskScore.ReadRisk risks) as [rs|e]; simpl in H; [|discriminate].
  set (n := match N_override with None => INR (List.length rs) | Some x => x end) in *.
  destruct (Rlt_dec 0 n) as [Hn|Hn]; simpl in H; [|discriminate].
  destruct (MultiRiskScore.ReadMultiRisk multirisks) as [t|e]; simpl in H; [|discriminate].
  inversion H; subst m; clear H.
  exists rs, t. split; [reflexivity|]. split; [reflexivity|].
  simpl. rewrite (Rlt_dec_true n _ _ _ Hn). simpl.
  split; [reflexivity|]. split; [reflexivity|]. split; [reflexivity|].
  intros gtdict. unfold calc. rewrite MultiRiskScore.calc_split. reflexivity.
Qed.

End WithEnv.
End oram2016.

(** * class sharp2019 *)

Module sharp2019.
Import MultiRiskScore.
Section WithEnv.
Context {Py : Python} {PS : Pksnp} {RI : Riskiter}.

(** [haplo in subject_alleles] *)
Definition in_alleles (haplo : Key) (subject_alleles : list AlleleId) : bool :=
  existsb (fun a => if Key_eq_dec haplo (KAllele a) then true else false) subject_alleles.

(** [sharp2019.nested_lookup] *)
Fixpoint nested_lookup (nested_dict : tree) (subject : list GenoType) : list R :=
  let wsum := MultiRiskScore.nested_lookup nested_dict subject in
  if truthy wsum then [wsum]
  else
    let subject_alleles := flat_map getAllelesTrue subject in
    match nested_dict with
    | Leaf beta => [beta]
    | Node d =>
        (fix loop (d : list (Key * tree)) : list R :=
           match d with
           | [] => []
           | (haplo, child) :: rest =>
               if in_alleles haplo subject_alleles
               then nested_lookup child subject ++ loop rest
               else loop rest
           end) d
    end.

(** [sum(l)]: the additions run from the left, starting at 0. *)
Definition sum (l : list R) : R := fold_left Rplus l 0.

(** [sharp2019.calc] *)
Definition calc (m : model) (gtdict : GtDict) : R :=
  let wsum := RiskScore.calc (base m) gtdict in
  let mrs := sum (firstn 2 (nested_lookup (multi m) (values gtdict))) in
  if truthy mrs then wsum + mrs / N m else wsum.

(** The constructor call of [sharp2019.ReadMultiRisk.nested_read]. *)
Definition allele_key (myid : option string) (chrom pos : string) (risk : Row) (i : nat)
  : result Key :=
  a <- Allele_of_multi myid chrom pos
         (row_get_str risk ("ALLELE_" ++ str_of_nat i)%string "") ;;
  Ok (KAllele a).

(** [sharp2019.ReadMultiRisk]: [itertools.tee] hands the same lines to
    both loops. *)
Definition ReadMultiRisk (risk_iter : list Row) : result tree :=
  nested_dict <- MultiRiskScore.ReadMultiRisk risk_iter ;;
  read_lines allele_key "ALLELE_1" risk_iter nested_dict.

(** [sharp2019.__init__] *)
Definition init (risks multirisks : list Row) (N_override : option R) : result model :=
  m <- init_with ReadMultiRisk risks multirisks N_override ;;
  Ok (set_N m 1).


(** The keys of a dict are sorted by kind: those of genotypes come
    before those of alleles. *)
Definition geno_first (keys : list Key) : Prop :=
  exists gs als, keys = map KGeno gs ++ map KAllele als.

Definition all_geno (keys : list Key) : Prop :=
  exists gs, keys = map KGeno gs.

Definition is_geno (k : Key) : Prop :=
  match k with KGeno _ => True | KAllele _ => False end.

Definition is_allele (k : Key) : Prop :=
  match k with KAllele _ => True | KGeno _ => False end.

(** [Q] holds of the key list of every dict of a nested dict. *)
Fixpoint every_node (Q : list Key -> Prop) (t : tree) : Prop :=
  match t with
  | Leaf _ => True
  | Node d =>
      Q (od_keys d) /\
      (fix children (d : list (Key * tree)) : Prop :=
         match d with
         | [] => True
         | kc :: rest => every_node Q (snd kc) /\ children rest
         end) d
  end.

(** The lines a loop of [ReadMultiRisk] reads. *)
Definition has_column (column : string) (risk : Row) : bool := row_truthy risk column.

(** ** The order of the keys *)

Lemma every_node_Node Q d :
  every_node Q (Node d) <-> Q (od_keys d) /\ Forall (fun kc => every_node Q (snd kc)) d.
Proof.
  simpl. split; intros [HQ HC]; (split; [exact HQ|]); clear HQ.
  - induction d as [|kc d IH]; [constructor|].
    destruct HC as [H1 H2]. constructor; [exact H1 | exact (IH H2)].
  - induction HC as [|kc d H1 H2 IH]; [exact I | split; assumption].
Qed.

Lemma every_node_mono (Q1 Q2 : list Key -> Prop) :
  (forall keys, Q1 keys -> Q2 keys) ->
  forall t, every_node Q1 t -> every_node Q2 t.
Proof.
  intros HQ t. induction t as [b|d IH] using tree_induction; [trivial|].
  rewrite !every_node_Node. intros [H1 H2]. split; [apply HQ; exact H1|].
  rewrite Forall_forall in *. intros kc Hkc. apply IH; [exact Hkc | apply H2; exact Hkc].
Qed.

Lemma read_step_Descend make_key risk i k :
  read_step make_key risk i = Descend k ->
  exists myid chrom pos, make_key myid chrom pos risk i = Ok k.
Proof.
  unfold read_step. destruct (locus_fields risk i) as [[[chrom pos] myid]|e]; [|discriminate].
  destruct (make_key myid chrom pos risk i) as [k'|e] eqn:E.
  - intros H. inversion H. subst. eauto.
  - destruct e; discriminate.
Qed.

Section Invariant.
Variable make_key : option string -> string -> string -> Row -> nat -> result Key.
Variable kind : Key -> Prop.
Variable Q : list Key -> Prop.
Hypothesis make_key_kind :
  forall myid chrom pos risk i k, make_key myid chrom pos risk i = Ok k -> kind k.
Hypothesis Q_empty : Q [].
Hypothesis Q_append : forall keys k, Q keys -> kind k -> Q (keys ++ [k]).

Lemma nested_read_every_node : forall fuel risk t i t',
  every_node Q t ->
  nested_read make_key fuel risk t i = Ok t' ->
  every_node Q t'.
Proof.
  induction fuel as [|fuel IH]; intros risk t i t' Ht H; [discriminate|].
  simpl in H. destruct (read_step make_key risk i) as [k| |e] eqn:HS; [| |discriminate].
  - destruct t as [b|d]; [discriminate|].
    destruct (nested_read make_key fuel risk
                (from_option (Node []) (od_get Key_eq_dec d k)) (S i)) as [sub|e] eqn:E;
      simpl in H; [|discriminate].
    inversion H; subst t'; clear H.
    apply every_node_Node in Ht. destruct Ht as [HQ HC].
    assert (Hsub : every_node Q sub).
    { apply (IH risk (from_option (Node []) (od_get Key_eq_dec d k)) (S i) sub); [|exact E].
      destruct (od_get Key_eq_dec d k) as [c|] eqn:G; simpl.
      - apply od_get_Some_In in G. rewrite Forall_forall in HC. apply (HC _ G).
      - split; [exact Q_empty | exact I]. }
    apply every_node_Node. split.
    + rewrite od_keys_set. destruct (od_mem Key_eq_dec d k); [exact HQ|].
      apply Q_append; [exact HQ|].
      destruct (read_step_Descend _ _ _ _ HS) as (myid & chrom & pos & Hk).
      exact (make_key_kind _ _ _ _ _ _ Hk).
    + apply od_set_Forall; [exact HC | exact Hsub].
  - unfold terminal in H.
    destruct (get_beta risk) as [v|e]; simpl in H; [|discriminate].
    destruct (float v) as [b|e]; simpl in H; [|discriminate].
    destruct (truthy b && is_dict t); [|discriminate].
    inversion H. exact I.
Qed.

Lemma read_lines_every_node column : forall risk_iter t t',
  every_node Q t ->
  read_lines make_key column risk_iter t = Ok t' ->
  every_node Q t'.
Proof.
  induction risk_iter as [|risk rest IH]; intros t t' Ht H; simpl in H.
  - inversion H. subst. exact Ht.
  - destruct (row_truthy risk column); [|exact (IH _ _ Ht H)].
    destruct (nested_read make_key recursion_limit risk t 1) as [nd|e] eqn:E;
      simpl in H; [|discriminate].
    apply (IH nd t'); [|exact H].
    exact (nested_read_every_node _ _ _ _ _ Ht E).
Qed.
End Invariant.

Lemma read_lines_filter make_key column : forall risk_iter t,
  read_lines make_key column risk_iter t =
  read_lines make_key column (filter (has_column column) risk_iter) t.
Proof.
  unfold has_column.
  induction risk_iter as [|risk rest IH]; intros t; [reflexivity|].
  simpl. destruct (row_truthy risk column) eqn:T.
  - simpl. rewrite T.
    destruct (nested_read make_key recursion_limit risk t 1) as [nd|e]; simpl; [apply IH | reflexivity].
  - apply IH.
Qed.

Lemma all_geno_append keys k : all_geno keys -> is_geno k -> all_geno (keys ++ [k]).
Proof.
  intros [gs E] Hk. destruct k as [g|a]; [|contradiction].
  exists (gs ++ [g]). rewrite E, map_app. reflexivity.
Qed.

Lemma geno_first_append keys k : geno_first keys -> is_allele k -> geno_first (keys ++ [k]).
Proof.
  intros (gs & als & E) Hk. destruct k as [g|a]; [contradiction|].
  exists gs, (als ++ [a]). rewrite E, map_app, <- app_assoc. reflexivity.
Qed.

Lemma all_geno_geno_first keys : all_geno keys -> geno_first keys.
Proof.
  intros [gs E]. exists gs, []. rewrite E, app_nil_r. reflexivity.
Qed.

Lemma geno_key_kind myid chrom pos risk i k :
  geno_key myid chrom pos risk i = Ok k -> is_geno k.
Proof.
  unfold geno_key. destruct (GenoType_of_multi _ _ _ _); simpl; intros H; inversion H.
  exact I.
Qed.

Lemma allele_key_kind myid chrom pos risk i k :
  allele_key myid chrom pos risk i = Ok k -> is_allele k.
Proof.
  unfold allele_key. destruct (Allele_of_multi _ _ _ _); simpl; intros H; inversion H.
  exact I.
Qed.

(** In a list sorted by kind no key of an allele stands before the key
    of a genotype. *)
Lemma geno_first_order keys pre a mid g post :
  geno_first keys -> keys = pre ++ KAllele a :: mid ++ KGeno g :: post -> False.
Proof.
  intros (gs & als & E) E'. rewrite E' in E. clear E'.
  revert pre E. induction gs as [|g0 gs IH]; intros pre E; simpl in E.
  - assert (HI : In (KGeno g) (map KAllele als)).
    { rewrite <- E. apply in_or_app. right. right. apply in_or_app. right. left. reflexivity. }
    apply in_map_iff in HI. destruct HI as (x & Hx & _). discriminate.
  - destruct pre as [|k pre]; simpl in E; [discriminate|].
    inversion E. eapply IH. eassumption.
Qed.

(** C10. [sharp2019.ReadMultiRisk] reads the lines twice: all chains of
    genotype keys, from the lines with a [GENOTYPE_1], go into the nested
    dict before any chain of allele keys, from the lines with an
    [ALLELE_1].  In every dict of the result the keys of genotypes
    therefore come before the keys of alleles, no allele key standing
    before a genotype key, and the result depends on the order of the
    lines of each kind only, not on how the two kinds interleave in the
    file. *)
Theorem ReadMultiRisk_genotypes_first :
  (forall risk_iter,
      ReadMultiRisk risk_iter =
      (nested_dict <- read_lines geno_key "GENOTYPE_1"
                        (filter (has_column "GENOTYPE_1") risk_iter) (Node []) ;;
       read_lines allele_key "ALLELE_1"
         (filter (has_column "ALLELE_1") risk_iter) nested_dict)) /\
  (forall risk_iter t,
      ReadMultiRisk risk_iter = Ok t ->
      every_node geno_first t /\
      every_node (fun keys => forall pre a mid g post,
                    keys <> pre ++ KAllele a :: mid ++ KGeno g :: post) t) /\
  (forall risk_iter risk_iter',
      filter (has_column "GENOTYPE_1") risk_iter =
        filter (has_column "GENOTYPE_1") risk_iter' ->
      filter (has_column "ALLELE_1") risk_iter =
        filter (has_column "ALLELE_1") risk_iter' ->
      ReadMultiRisk risk_iter = ReadMultiRisk risk_iter').
Proof.
  assert (P1 : forall risk_iter,
      ReadMultiRisk risk_iter =
      (nested_dict <- read_lines geno_key "GENOTYPE_1"
                        (filter (has_column "GENOTYPE_1") risk_iter) (Node []) ;;
       read_lines allele_key "ALLELE_1"
         (filter (has_column "ALLELE_1") risk_iter) nested_dict)).
  { intros risk_iter. unfold ReadMultiRisk, MultiRiskScore.ReadMultiRisk.
    rewrite (read_lines_filter geno_key).
    destruct (read_lines geno_key _ _ _); simpl; [|reflexivity].
    apply read_lines_filter. }
  assert (P2 : forall risk_iter t,
      ReadMultiRisk risk_iter = Ok t -> every_node geno_first t).
  { intros risk_iter t H. unfold ReadMultiRisk, MultiRiskScore.ReadMultiRisk in H.
    destruct (read_lines geno_key "GENOTYPE_1" risk_iter (Node [])) as [t1|e] eqn:E1;
      simpl in H; [|discriminate].
    assert (H1 : every_node all_geno t1).
    { apply (read_lines_every_node geno_key is_geno all_geno geno_key_kind
               (ex_intro _ [] eq_refl) all_geno_append "GENOTYPE_1" risk_iter (Node []) t1);
        [|exact E1].
      split; [exists []; reflexivity | exact I]. }
    apply (read_lines_every_node allele_key is_allele geno_first allele_key_kind
             (ex_intro _ [] (ex_intro _ [] eq_refl)) geno_first_append
             "ALLELE_1" risk_iter t1 t); [|exact H].
    apply (every_node_mono all_geno geno_first all_geno_geno_first). exact H1. }
  split; [exact P1|]. split.
  - intros risk_iter t H. split; [exact (P2 _ _ H)|].
    apply (every_node_mono geno_first); [|exact (P2 _ _ H)].
    intros keys HG pre a mid g post E. exact (geno_first_order _ _ _ _ _ _ HG E).
  - intros risk_iter risk_iter' HG HA. rewrite !P1, HG, HA. reflexivity.
Qed.

(** ** The collection *)

Lemma sum_Rsum l : sum l = Rsum l.
Proof. unfold sum. rewrite fold_left_Rplus. lra. Qed.

Lemma nested_lookup_match nested_dict subject :
  MultiRiskScore.nested_lookup nested_dict subject <> 0 ->
  nested_lookup nested_dict subject = [MultiRiskScore.nested_lookup nested_dict subject].
Proof.
  intros NZ. destruct nested_dict as [b|d]; simpl nested_lookup;
    rewrite truthy_true by exact NZ; reflexivity.
Qed.

Lemma nested_lookup_Node d subject :
  MultiRiskScore.nested_lookup (Node d) subject = 0 ->
  nested_lookup (Node d) subject =
  flat_map (fun kc => if in_alleles (fst kc) (flat_map getAllelesTrue subject)
                      then nested_lookup (snd kc) subject else []) d.
Proof.
  intros Z. simpl nested_lookup. rewrite truthy_false by exact Z. clear Z.
  induction d as [|[k c] d IH]; [reflexivity|].
  simpl flat_map. rewrite <- IH.
  destruct (in_alleles k (flat_map getAllelesTrue subject)); reflexivity.
Qed.


Lemma nested_lookup_Leaf b subject : nested_lookup (Leaf b) subject = [b].
Proof.
  simpl. unfold truthy. destruct (Req_dec_T b 0); reflexivity.
Qed.





Lemma nested_lookup_no_match_collects nested_dict subject :
  MultiRiskScore.nested_lookup nested_dict subject = 0 ->
  nested_lookup nested_dict subject =
  match nested_dict with
  | Leaf beta => [beta]
  | Node d =>
      flat_map (fun kc => if in_alleles (fst kc) (flat_map getAllelesTrue subject)
                          then nested_lookup (snd kc) subject else []) d
  end.
Proof.
  intros Z. destruct nested_dict as [b|d].
  - apply nested_lookup_Leaf.
  - apply nested_lookup_Node. exact Z.
Qed.

(** C4. A constructed [sharp2019] model has the denominator 1, whatever
    the number of risk entries; its score is the linear score plus the
    sum of the first two, at most, of the weights the collection
    returns; when the first-match lookup of [MultiRiskScore] finds a
    weight, the collection is that one weight alone; and when it finds
    none, the collection gathers, over the keys of the dict in their
    order that are among the alleles of the subject, what the
    collection returns for the child stored with the key, a weight
    being returned as it is. *)
Theorem init_calc (risks multirisks : list Row) (N_override : option R) (m : model) :
  init risks multirisks N_override = Ok m ->
  N m = 1 /\
  (forall gtdict,
      calc m gtdict =
      RiskScore.calc (base m) gtdict +
      Rsum (firstn 2 (nested_lookup (multi m) (values gtdict))) /\
      (List.length (firstn 2 (nested_lookup (multi m) (values gtdict))) <= 2)%nat) /\
  (forall gtdict,
      MultiRiskScore.nested_lookup (multi m) (values gtdict) <> 0 ->
      nested_lookup (multi m) (values gtdict) =
        [MultiRiskScore.nested_lookup (multi m) (values gtdict)] /\
      calc m gtdict =
        RiskScore.calc (base m) gtdict +
        MultiRiskScore.nested_lookup (multi m) (values gtdict)) /\
  (forall nested_dict subject,
      (MultiRiskScore.nested_lookup nested_dict subject <> 0 ->
       nested_lookup nested_dict subject =
         [MultiRiskScore.nested_lookup nested_dict subject]) /\
      (MultiRiskScore.nested_lookup nested_dict subject = 0 ->
       nested_lookup nested_dict subject =
       match nested_dict with
       | Leaf beta => [beta]
       | Node d =>
           flat_map (fun kc => if in_alleles (fst kc) (flat_map getAllelesTrue subject)
                               then nested_lookup (snd kc) subject else []) d
       end)).
Proof.
  unfold init, init_with. intros H.
  destruct (RiskScore.init risks N_override) as [b|e]; simpl in H; [|discriminate].
  destruct (ReadMultiRisk multirisks) as [t|e]; simpl in H; [|discriminate].
  inversion H; subst m; clear H.
  assert (C : forall gtdict,
             calc (set_N {| base := b; multi := t |} 1) gtdict =
             RiskScore.calc (base (set_N {| base := b; multi := t |} 1)) gtdict +
             Rsum (firstn 2 (nested_lookup t (values gtdict)))).
  { intros gtdict. unfold calc. simpl multi. rewrite sum_Rsum.
    change (N (set_N {| base := b; multi := t |} 1)) with 1.
    destruct (truthy _) eqn:T; [lra|].
    destruct (Req_dec_T (Rsum (firstn 2 (nested_lookup t (values gtdict)))) 0) as [E|NE];
      [rewrite E; lra | rewrite truthy_true in T by exact NE; discriminate]. }
  split; [reflexivity|]. split; [|split].
  - intros gtdict. split; [apply C | apply firstn_le_length].
  - intros gtdict NZ. simpl multi in *.
    pose proof (nested_lookup_match t (values gtdict) NZ) as E.
    split; [exact E|]. rewrite C, E. simpl. lra.
  - intros nested_dict subject. split.
    + apply nested_lookup_match.
    + apply nested_lookup_no_match_collects.
Qed.

End WithEnv.
End sharp2019.

(** * Worked examples *)

Module Examples.
Import MultiRiskScore.

(** [float] and [int] on the few texts the examples use. *)
Definition example_float (s : string) : option R :=
  if String.eqb s "0" then Some 0
  else if String.eqb s "0.5" then Some (1/2)
  else if String.eqb s "1.0" then Some 1
  else if String.eqb s "2.0" then Some 2
  else if String.eqb s "-0.2" then Some (-2/10)
  else None.

Definition example_int (s : string) : option Z :=
  if String.eqb s "100" then Some 100%Z
  else if String.eqb s "200" then Some 200%Z
  else None.

(** In the examples [riskiter] is an object with a [get] method. *)
#[export] Instance example_file : Riskiter := {| riskiter_has_get := true |}.

#[export] Instance example_python : Python :=
  {| float_of_str := example_float; int_of_str := example_int; recursion_limit := 1000 |}.

(** Identities with all their components: chromosome, position, and the
    allele symbol or the genotype pair. *)
Definition ExAllele : Type := (string * Z * string)%type.
Definition ExGeno : Type := (string * string * list string)%type.

Definition ExAllele_eq_dec (x y : ExAllele) : {x = y} + {x <> y}.
Proof. repeat decide equality. Defined.

Definition ExGeno_eq_dec (x y : ExGeno) : {x = y} + {x <> y}.
Proof. repeat decide equality. Defined.

#[export] Instance example_pksnp : Pksnp :=
  {| AlleleId := ExAllele;
     GenoId := ExGeno;
     AlleleId_eq_dec := ExAllele_eq_dec;
     GenoId_eq_dec := ExGeno_eq_dec;
     Allele_of_weight := fun chrom pos allele =>
       if String.eqb allele "None" then Raise AttributeError else Ok (chrom, pos, allele);
     Allele_of_multi := fun _ chrom pos allele =>
       if String.eqb allele "" then Raise AssertionError
       else match example_int pos with
            | Some z => Ok (chrom, z, allele)
            | None => Raise AssertionError
            end;
     GenoType_of_multi := fun _ chrom pos genotype =>
       match genotype with
       | [a; b] => if String.eqb a "" || String.eqb b "" then Raise AssertionError
                   else Ok (chrom, pos, genotype)
       | _ => Raise AssertionError
       end |}.

(** The weights of the first scenario of the specification. *)
Definition ex_weights : list Row :=
  [ [("CHROM", "1"); ("POS", "100"); ("ALLELE", "A"); ("BETA", "0.5")];
    [("CHROM", "2"); ("POS", "200"); ("ALLELE", "G"); ("BETA", "-0.2")] ].

Definition ex_risks : list RiskScore.Risk :=
  [ (("1", 100%Z, "A"), 1/2); (("2", 200%Z, "G"), -2/10) ].

Definition ex_model (n : R) : RiskScore.model :=
  {| RiskScore.risks := ex_risks;
     RiskScore.beta := od_of_list AlleleId_eq_dec ex_risks;
     RiskScore.N := n |}.

(** A subject with dosage 1 of [A] and 0 of [G]. *)
Definition gt1 : GenoType :=
  {| geno_id := ("1", "100", ["A"; "A"]);
     getAlleles := [(("1", 100%Z, "A"), 1)];
     getAllelesTrue := [("1", 100%Z, "A")] |}.

Definition gt2 : GenoType :=
  {| geno_id := ("2", "200", ["C"; "C"]);
     getAlleles := [(("2", 200%Z, "G"), 0)];
     getAllelesTrue := [] |}.

Definition ex_subject : GtDict := [("rs1", gt1); ("rs2", gt2)].

(** A line with a weight in [BETA] and an odds ratio of 0. *)
Definition ex_zero_odds : Row :=
  [("CHROM", "1"); ("POS", "100"); ("ALLELE", "A"); ("BETA", "0.5"); ("ODDSRATIO", "0")].

Lemma ex_ReadRisk : RiskScore.ReadRisk ex_weights = Ok ex_risks.
Proof.
  unfold ex_weights, RiskScore.ReadRisk, RiskScore.read_risk.
  rewrite !get_beta_no_odds by reflexivity.
  reflexivity.
Qed.

Lemma ex_init : RiskScore.init ex_weights None = Ok (ex_model 2).
Proof.
  rewrite (RiskScore.init_ok ex_weights None ex_risks ex_ReadRisk) by (simpl; lra).
  unfold ex_model. simpl. repeat f_equal; lra.
Qed.

(** The first scenario of the specification: the score is 0.25. *)
Lemma calc_weighted_sum_witness :
  RiskScore.calc (ex_model 2) ex_subject = 1/4 /\
  RiskScore.dosage_of ex_subject ("3", 300%Z, "T") = 0 /\
  RiskScore.dosage_of ex_subject ("1", 100%Z, "A") = 1.
Proof.
  split; [|split].
  - rewrite (proj1 (RiskScore.calc_weighted_sum (ex_model 2) ex_subject)).
    unfold RiskScore.dosage_of, last_assigned. simpl. lra.
  - apply (proj1 (proj2 (RiskScore.calc_weighted_sum (ex_model 2) ex_subject))).
    simpl. intros [H|[H|[]]]; discriminate H.
  - apply (proj2 (proj2 (RiskScore.calc_weighted_sum (ex_model 2) ex_subject))
             [] ("1", 100%Z, "A") 1 [(("2", 200%Z, "G"), 0)]).
    + reflexivity.
    + simpl. intros [H|[]]; discriminate H.
Defined.

Lemma init_sets_N_witness :
  RiskScore.ReadRisk ex_weights = Ok ex_risks /\
  RiskScore.init ex_weights None = Ok (ex_model (INR 2)) /\
  RiskScore.init ex_weights (Some (1/2)) = Ok (ex_model (1/2)) /\
  RiskScore.init ex_weights (Some 0) = Raise AssertionError.
Proof.
  split; [exact ex_ReadRisk|]. split; [|split].
  - apply (proj1 (proj2 (RiskScore.init_sets_N ex_weights None ex_risks ex_ReadRisk))).
    simpl. lra.
  - apply (proj1 (proj2 (RiskScore.init_sets_N ex_weights (Some (1/2)) ex_risks ex_ReadRisk))).
    lra.
  - apply (proj1 (proj2 (proj2 (RiskScore.init_sets_N ex_weights (Some 0) ex_risks ex_ReadRisk)))).
    lra.
Defined.

Lemma ReadRisk_takes_log_first_witness :
  row_get ex_zero_odds "BETA" = Some "0.5" /\
  RiskScore.read_beta ex_zero_odds = Raise ValueError /\
  RiskScore.ReadRisk [ex_zero_odds] = Raise ValueError /\
  RiskScore.init [ex_zero_odds] None = Raise ValueError.
Proof.
  split; [reflexivity|].
  apply (RiskScore.ReadRisk_takes_log_first ex_zero_odds [] None "0.5" "0" (1/2)).
  - reflexivity.
  - reflexivity.
  - reflexivity.
  - reflexivity.
  - right. exists 0. split; [reflexivity | lra].
Defined.

(** The second scenario of the specification: one chain, [G1], [G2],
    weight 1. *)
Definition G1 : Key := KGeno ("1", "100", ["A"; "A"]).
Definition G2 : Key := KGeno ("2", "200", ["C"; "C"]).
Definition a1 : AlleleId := ("1", 100%Z, "A").
Definition A1 : Key := KAllele a1.

Definition ex_multi_line : Row :=
  [("CHROM_1", "1"); ("POS_1", "100"); ("GENOTYPE_1", "A:A");
   ("CHROM_2", "2"); ("POS_2", "200"); ("GENOTYPE_2", "C:C"); ("BETA", "1.0")].


Definition ex_blank_line : Row := [("GENOTYPE_1", ""); ("BETA", "1.0")].

(** Lines keyed by alleles: a single allele, and the same allele twice. *)
Definition ex_allele_line : Row :=
  [("CHROM_1", "1"); ("POS_1", "100"); ("ALLELE_1", "A"); ("BETA", "0.5")].

Definition ex_tree : tree := chain [G1; G2] 1.

Definition ex_sharp_tree : tree := Node [(G1, chain [G2] 1); (A1, Leaf (1/2))].


Lemma ex_reads_chain : reads_chain geno_key ex_multi_line 1 [G1; G2].
Proof. simpl. repeat split; reflexivity. Qed.

Lemma ex_read_beta : RiskScore.read_beta ex_multi_line = Ok 1.
Proof. apply (RiskScore.read_beta_BETA ex_multi_line "1.0" 1); reflexivity. Qed.

Lemma ex_ReadMultiRisk :
  MultiRiskScore.ReadMultiRisk [ex_blank_line; ex_multi_line] = Ok ex_tree.
Proof.
  unfold MultiRiskScore.ReadMultiRisk.
  rewrite read_lines_skips by reflexivity.
  rewrite (read_lines_inserts geno_key "GENOTYPE_1" ex_multi_line [] (Node []) [G1; G2] 1);
    [reflexivity | reflexivity | exact ex_reads_chain | reflexivity | simpl; lia
    | exact ex_read_beta | lra].
Qed.

Lemma nested_lookup_first_match_witness :
  nested_lookup ex_tree (values ex_subject) = 1 /\
  nested_lookup ex_tree [gt1] = 0.
Proof.
  split.
  - exact (eq_trans
             (proj1 (proj1 (proj2 nested_lookup_first_match)
                       [] G1 (chain [G2] 1) [] (values ex_subject)
                       (fun k (H : In k []) => match H with end) eq_refl))
             eq_refl).
  - apply (proj2 (proj2 (proj2 nested_lookup_first_match)) [G1] G2 [] 1 [gt1]).
    reflexivity.
Defined.

Definition ex_multi_model (n : R) : model :=
  {| base := ex_model n; multi := ex_tree |}.

Lemma ex_linear : RiskScore.calc (ex_model 2) ex_subject = 1/4.
Proof.
  unfold RiskScore.calc. simpl. lra.
Qed.

Lemma ex_lookup : nested_lookup ex_tree (values ex_subject) = 1.
Proof. reflexivity. Qed.

Lemma calc_linear_plus_match_witness :
  calc (ex_multi_model 2) ex_subject = 1/4 + 1/2.
Proof.
  rewrite (calc_linear_plus_match (ex_multi_model 2) ex_subject).
  change (RiskScore.calc (base (ex_multi_model 2)) ex_subject)
    with (RiskScore.calc (ex_model 2) ex_subject).
  change (multi (ex_multi_model 2)) with ex_tree.
  rewrite ex_linear, ex_lookup.
  unfold N. simpl. lra.
Defined.




Definition ex_oram : model := ex_multi_model (2 * (2 + 1)).

Lemma ex_multi_init :
  MultiRiskScore.init ex_weights [ex_blank_line; ex_multi_line] None = Ok (ex_multi_model 2).
Proof.
  unfold MultiRiskScore.init, init_with. rewrite ex_init. simpl bind.
  rewrite ex_ReadMultiRisk. reflexivity.
Qed.

Lemma ex_oram_init :
  oram2016.init ex_weights [ex_blank_line; ex_multi_line] None = Ok ex_oram.
Proof.
  unfold oram2016.init. rewrite ex_multi_init. reflexivity.
Qed.

Lemma init_denominator_witness :
  oram2016.init ex_weights [ex_blank_line; ex_multi_line] None = Ok ex_oram /\
  N ex_oram = 2 * (INR 2 + 1) /\
  oram2016.calc ex_oram ex_subject =
    RiskScore.calc (base ex_oram) ex_subject + nested_lookup ex_tree (values ex_subject) / 6.
Proof.
  split; [exact ex_oram_init|].
  destruct (oram2016.init_denominator ex_weights [ex_blank_line; ex_multi_line] None
              ex_oram ex_oram_init) as (rs & t & HR & HT & _ & HN & HM & HC).
  rewrite ex_ReadRisk in HR. injection HR as HR. subst rs.
  split; [exact HN|].
  rewrite HC, <- HM. f_equal. f_equal. unfold ex_oram, N. simpl. lra.
Defined.

(** The multi-locus lines of a [sharp2019] model, the allele line
    standing first in the file. *)
Definition ex_sharp_lines : list Row := [ex_allele_line; ex_multi_line].

Definition ex_sharp : model := {| base := ex_model 1; multi := ex_sharp_tree |}.

Lemma ex_sharp_first_loop : MultiRiskScore.ReadMultiRisk ex_sharp_lines = Ok ex_tree.
Proof.
  unfold MultiRiskScore.ReadMultiRisk, ex_sharp_lines.
  rewrite read_lines_skips by reflexivity.
  rewrite (read_lines_inserts geno_key "GENOTYPE_1" ex_multi_line [] (Node []) [G1; G2] 1);
    [reflexivity | reflexivity | exact ex_reads_chain | reflexivity | simpl; lia
    | exact ex_read_beta | lra].
Qed.

Lemma ex_sharp_ReadMultiRisk : sharp2019.ReadMultiRisk ex_sharp_lines = Ok ex_sharp_tree.
Proof.
  unfold sharp2019.ReadMultiRisk. rewrite ex_sharp_first_loop. unfold bind, ex_sharp_lines.
  rewrite (read_lines_inserts sharp2019.allele_key "ALLELE_1" ex_allele_line [ex_multi_line]
             ex_tree [A1] (1/2));
    [| reflexivity | simpl; repeat split; reflexivity | reflexivity | simpl; lia
     | apply (RiskScore.read_beta_BETA ex_allele_line "0.5" (1/2)); reflexivity | lra].
  rewrite read_lines_skips by reflexivity.
  reflexivity.
Qed.

Lemma ex_sharp_init : sharp2019.init ex_weights ex_sharp_lines None = Ok ex_sharp.
Proof.
  unfold sharp2019.init, init_with. rewrite ex_init. simpl bind.
  rewrite ex_sharp_ReadMultiRisk. reflexivity.
Qed.

(** A file with three single alleles besides the chain of genotypes, and
    a subject that carries the three alleles but not the genotypes of
    the chain. *)
Definition a2 : AlleleId := ("2", 200%Z, "G").
Definition a3 : AlleleId := ("1", 100%Z, "T").

Definition ex_allele_G_line : Row :=
  [("CHROM_1", "2"); ("POS_1", "200"); ("ALLELE_1", "G"); ("BETA", "2.0")].

Definition ex_allele_T_line : Row :=
  [("CHROM_1", "1"); ("POS_1", "100"); ("ALLELE_1", "T"); ("BETA", "1.0")].

Definition ex_three_alleles_lines : list Row :=
  [ex_allele_line; ex_allele_G_line; ex_multi_line; ex_allele_T_line].

Definition ex_three_alleles_tree : tree :=
  Node [(G1, chain [G2] 1); (A1, Leaf (1/2)); (KAllele a2, Leaf 2); (KAllele a3, Leaf 1)].

Definition ex_three_alleles : model :=
  {| base := ex_model 1; multi := ex_three_alleles_tree |}.

Definition gt_AT : GenoType :=
  {| geno_id := ("1", "100", ["A"; "T"]);
     getAlleles := [(a1, 1); (a3, 1)];
     getAllelesTrue := [a1; a3] |}.

Definition gt_GG : GenoType :=
  {| geno_id := ("2", "200", ["G"; "G"]);
     getAlleles := [(a2, 2)];
     getAllelesTrue := [a2] |}.

Definition ex_carrier : GtDict := [("rs1", gt_AT); ("rs2", gt_GG)].

Lemma ex_three_alleles_first_loop :
  MultiRiskScore.ReadMultiRisk ex_three_alleles_lines = Ok ex_tree.
Proof.
  unfold MultiRiskScore.ReadMultiRisk, ex_three_alleles_lines.
  rewrite !read_lines_skips by reflexivity.
  rewrite (read_lines_inserts geno_key "GENOTYPE_1" ex_multi_line [ex_allele_T_line]
             (Node []) [G1; G2] 1);
    [| reflexivity | exact ex_reads_chain | reflexivity | simpl; lia
     | exact ex_read_beta | lra].
  rewrite read_lines_skips by reflexivity. reflexivity.
Qed.

Lemma ex_three_alleles_ReadMultiRisk :
  sharp2019.ReadMultiRisk ex_three_alleles_lines = Ok ex_three_alleles_tree.
Proof.
  unfold sharp2019.ReadMultiRisk. rewrite ex_three_alleles_first_loop.
  unfold bind, ex_three_alleles_lines.
  rewrite (read_lines_inserts sharp2019.allele_key "ALLELE_1" ex_allele_line _
             ex_tree [A1] (1/2));
    [| reflexivity | simpl; repeat split; reflexivity | reflexivity | simpl; lia
     | apply (RiskScore.read_beta_BETA ex_allele_line "0.5" (1/2)); reflexivity | lra].
  rewrite (read_lines_inserts sharp2019.allele_key "ALLELE_1" ex_allele_G_line _
             _ [KAllele a2] 2);
    [| reflexivity | simpl; repeat split; reflexivity | reflexivity | simpl; lia
     | apply (RiskScore.read_beta_BETA ex_allele_G_line "2.0" 2); reflexivity | lra].
  rewrite read_lines_skips by reflexivity.
  rewrite (read_lines_inserts sharp2019.allele_key "ALLELE_1" ex_allele_T_line _
             _ [KAllele a3] 1);
    [| reflexivity | simpl; repeat split; reflexivity | reflexivity | simpl; lia
     | apply (RiskScore.read_beta_BETA ex_allele_T_line "1.0" 1); reflexivity | lra].
  reflexivity.
Qed.

Lemma ex_three_alleles_init :
  sharp2019.init ex_weights ex_three_alleles_lines None = Ok ex_three_alleles.
Proof.
  unfold sharp2019.init, init_with. rewrite ex_init. simpl bind.
  rewrite ex_three_alleles_ReadMultiRisk. reflexivity.
Qed.

Lemma init_calc_witness :
  (sharp2019.init ex_weights ex_sharp_lines None = Ok ex_sharp /\
   N ex_sharp = 1 /\
   sharp2019.nested_lookup ex_sharp_tree (values ex_subject) = [1] /\
   sharp2019.calc ex_sharp ex_subject = RiskScore.calc (ex_model 1) ex_subject + 1) /\
  (sharp2019.init ex_weights ex_three_alleles_lines None = Ok ex_three_alleles /\
   N ex_three_alleles = 1 /\
   nested_lookup ex_three_alleles_tree (values ex_carrier) = 0 /\
   sharp2019.nested_lookup ex_three_alleles_tree (values ex_carrier) = [1/2; 2; 1] /\
   sharp2019.calc ex_three_alleles ex_carrier =
     RiskScore.calc (ex_model 1) ex_carrier + (1/2 + 2)).
Proof.
  split.
  - split; [exact ex_sharp_init|].
    destruct (sharp2019.init_calc ex_weights ex_sharp_lines None ex_sharp ex_sharp_init)
      as (HN & _ & HM & _).
    split; [exact HN|].
    assert (L : nested_lookup (multi ex_sharp) (values ex_subject) = 1) by reflexivity.
    destruct (HM ex_subject) as (H1 & H2); [rewrite L; lra|].
    rewrite L in H1, H2. split; [exact H1 | exact H2].
  - split; [exact ex_three_alleles_init|].
    destruct (sharp2019.init_calc ex_weights ex_three_alleles_lines None ex_three_alleles
                ex_three_alleles_init) as (HN & HC & _ & HA).
    split; [exact HN|].
    assert (Z : nested_lookup ex_three_alleles_tree (values ex_carrier) = 0) by reflexivity.
    split; [exact Z|].
    assert (E : sharp2019.nested_lookup ex_three_alleles_tree (values ex_carrier) =
                [1/2; 2; 1]).
    { rewrite (proj2 (HA ex_three_alleles_tree (values ex_carrier)) Z).
      unfold ex_three_alleles_tree. cbn [flat_map fst snd].
      change (sharp2019.in_alleles G1 (flat_map getAllelesTrue (values ex_carrier)))
        with false.
      change (sharp2019.in_alleles A1 (flat_map getAllelesTrue (values ex_carrier)))
        with true.
      change (sharp2019.in_alleles (KAllele a2) (flat_map getAllelesTrue (values ex_carrier)))
        with true.
      change (sharp2019.in_alleles (KAllele a3) (flat_map getAllelesTrue (values ex_carrier)))
        with true.
      cbv iota. rewrite !sharp2019.nested_lookup_Leaf. reflexivity. }
    split; [exact E|].
    rewrite (proj1 (HC ex_carrier)).
    change (multi ex_three_alleles) with ex_three_alleles_tree. rewrite E.
    change (base ex_three_alleles) with (ex_model 1). simpl. lra.
Defined.



Lemma ReadMultiRisk_genotypes_first_witness :
  sharp2019.ReadMultiRisk [ex_allele_line; ex_multi_line] = Ok ex_sharp_tree /\
  sharp2019.ReadMultiRisk [ex_multi_line; ex_allele_line] = Ok ex_sharp_tree /\
  sharp2019.every_node sharp2019.geno_first ex_sharp_tree.
Proof.
  split; [exact ex_sharp_ReadMultiRisk|]. split.
  - rewrite <- ex_sharp_ReadMultiRisk.
    apply (proj2 (proj2 sharp2019.ReadMultiRisk_genotypes_first)); reflexivity.
  - exact (proj1 (proj1 (proj2 sharp2019.ReadMultiRisk_genotypes_first)
                    ex_sharp_lines ex_sharp_tree ex_sharp_ReadMultiRisk)).
Defined.

End Examples.

(** * More on class RiskScore: reading the weights *)

Module RiskScoreFacts.
Import RiskScore.
Section WithEnv.
Context {Py : Python} {PS : Pksnp} {RI : Riskiter}.

(** Some character of [s] is a separator. *)
Fixpoint string_exists (sep : ascii -> bool) (s : string) : bool :=
  match s with
  | EmptyString => false
  | String c s' => sep c || string_exists sep s'
  end.

Lemma split_on_nonempty sep s : exists w ws, split_on sep s = w :: ws.
Proof.
  induction s as [|c s IH]; simpl.
  - eauto.
  - destruct (sep c); [eauto|].
    destruct IH as (w & ws & E). rewrite E. eauto.
Qed.

Lemma split_on_none sep s : string_exists sep s = false -> split_on sep s = [s].
Proof.
  induction s as [|c s IH]; simpl; [reflexivity|].
  intros H. apply orb_false_iff in H. destruct H as [Hc Hs].
  rewrite Hc, (IH Hs). reflexivity.
Qed.

Lemma split_on_first sep c s1 s2 :
  string_exists sep s1 = false -> sep c = true ->
  split_on sep (s1 ++ String c s2)%string = s1 :: split_on sep s2.
Proof.
  intros H1 Hc. induction s1 as [|c1 s1 IH]; simpl in *.
  - rewrite Hc. reflexivity.
  - apply orb_false_iff in H1. destruct H1 as [Hc1 Hs1].
    rewrite Hc1, (IH Hs1). reflexivity.
Qed.

Lemma string_exists_weaken s :
  string_exists is_colon_or_underscore s = false -> string_exists is_colon s = false.
Proof.
  induction s as [|c s IH]; simpl; [reflexivity|].
  unfold is_colon_or_underscore, is_colon in *. intros H.
  apply orb_false_iff in H. destruct H as [Hc Hs].
  apply orb_false_iff in Hc. destruct Hc as [Hc _].
  rewrite Hc, (IH Hs). reflexivity.
Qed.

(** What [ReadRisk] does with a line once chromosome and position are
    known: the body of the [try]. *)
Definition build_risk (risk : Row) (chrom pos : string) : result Risk :=
  beta <- get_beta risk ;;
  exit_on_error (
    p <- int pos ;;
    let allele := from_option "None" (row_get risk "ALLELE") in
    b <- float beta ;;
    a <- Allele_of_weight chrom p allele ;;
    Ok (a, b)).

(** X1. A [POSID] that holds neither [:] nor [_] makes [ReadRisk] raise
    [IndexError], outside its [try], also when the line gives [CHROM]
    and [POS]: the defaults taken from [POSID] are computed first. *)
Theorem ReadRisk_POSID_without_separator (risk : Row) (rest : list Row) (posid : string) :
  row_get risk "POSID" = Some posid ->
  string_exists is_colon_or_underscore posid = false ->
  read_risk risk = Raise IndexError /\
  ReadRisk (risk :: rest) = Raise IndexError.
Proof.
  intros HP HS.
  assert (E : read_risk risk = Raise IndexError).
  { unfold read_risk, row_get_str. rewrite HP. simpl from_option.
    rewrite (split_on_none _ _ (string_exists_weaken _ HS)).
    rewrite (split_on_none _ _ HS). reflexivity. }
  split; [exact E|]. simpl. rewrite E. reflexivity.
Qed.

(** X2. A line without [CHROM] and [POS] takes both from [POSID]: from
    [c:p] the chromosome [c] and the position [p]; from [c_p] the
    position [p] too, but as chromosome the whole text [c_p], since only
    the position is split at underscores. *)
Theorem ReadRisk_POSID_parts (risk : Row) (c p : string) :
  row_get risk "CHROM" = None -> row_get risk "POS" = None ->
  string_exists is_colon_or_underscore c = false ->
  string_exists is_colon_or_underscore p = false ->
  (row_get risk "POSID" = Some (c ++ ":" ++ p)%string ->
   read_risk risk = build_risk risk c p) /\
  (row_get risk "POSID" = Some (c ++ "_" ++ p)%string ->
   read_risk risk = build_risk risk (c ++ "_" ++ p)%string p).
Proof.
  intros HC HPos Hc Hp. split; intros HP.
  - unfold read_risk, row_get_str, build_risk. rewrite HP, HC, HPos. simpl from_option.
    change (c ++ ":" ++ p)%string with (c ++ String ":" p)%string.
    rewrite (split_on_first is_colon ":" c p (string_exists_weaken _ Hc) eq_refl).
    rewrite (split_on_first is_colon_or_underscore ":" c p Hc eq_refl).
    rewrite (split_on_none _ _ Hp). reflexivity.
  - unfold read_risk, row_get_str, build_risk. rewrite HP, HC, HPos. simpl from_option.
    change (c ++ "_" ++ p)%string with (c ++ String "_" p)%string.
    rewrite (split_on_first is_colon_or_underscore "_" c p Hc eq_refl).
    rewrite (split_on_none _ _ Hp).
    assert (HN : string_exists is_colon (c ++ String "_" p) = false).
    { clear -Hc Hp. apply string_exists_weaken in Hp.
      induction c as [|c0 c IH]; simpl in *.
      - exact Hp.
      - apply orb_false_iff in Hc. destruct Hc as [H0 Hc].
        unfold is_colon_or_underscore in H0. apply orb_false_iff in H0.
        destruct H0 as [H0 _]. unfold is_colon at 1. rewrite H0. simpl.
        exact (IH Hc). }
    rewrite (split_on_none _ _ HN). reflexivity.
Qed.

(** X3. A line that names no position, neither in [POS] nor in [POSID],
    ends the run through [sys.exit] (the empty text is no integer), as
    long as its weight can be resolved. *)
Theorem ReadRisk_without_position (risk : Row) (rest : list Row) (v : pyval) :
  row_get risk "POS" = None -> row_get risk "POSID" = None ->
  int_of_str "" = None ->
  get_beta risk = Ok v ->
  read_risk risk = Raise SystemExit /\
  ReadRisk (risk :: rest) = Raise SystemExit.
Proof.
  intros HPos HP HI HB.
  assert (E : read_risk risk = Raise SystemExit).
  { unfold read_risk, row_get_str. rewrite HP, HPos. simpl. rewrite HB. simpl.
    unfold int. rewrite HI. reflexivity. }
  split; [exact E|]. simpl. rewrite E. reflexivity.
Qed.

(** X4. [ReadRisk] returns the entries of all lines, in the order of the
    file, or nothing: it succeeds exactly when every line can be read,
    and otherwise raises what the first line that cannot be read
    raises. *)
Theorem ReadRisk_all_or_first_error :
  (forall riskiter rs,
      ReadRisk riskiter = Ok rs <->
      Forall2 (fun risk r => read_risk risk = Ok r) riskiter rs) /\
  (forall good rs bad e rest,
      Forall2 (fun risk r => read_risk risk = Ok r) good rs ->
      read_risk bad = Raise e ->
      ReadRisk (good ++ bad :: rest) = Raise e).
Proof.
  split.
  - induction riskiter as [|risk rest IH]; intros rs; simpl.
    + split; intros H; [inversion H; constructor | inversion H; reflexivity].
    + split; intros H.
      * destruct (read_risk risk) as [r|e] eqn:E; simpl in H; [|discriminate].
        destruct (ReadRisk rest) as [rs'|e] eqn:E'; simpl in H; [|discriminate].
        inversion H. constructor; [exact E | apply IH; reflexivity].
      * inversion H as [|risk' r rest' rs' H1 H2]; subst.
        rewrite H1. simpl. apply IH in H2. rewrite H2. reflexivity.
  - intros good rs bad e rest HG HB.
    induction HG as [|risk r good rs H1 H2 IH]; simpl.
    + rewrite HB. reflexivity.
    + rewrite H1. simpl. rewrite IH. reflexivity.
Qed.

Lemma last_assigned_Some_In (items : list (AlleleId * R)) id w :
  last_assigned AlleleId_eq_dec items id = Some w -> In id (map fst items).
Proof.
  unfold last_assigned.
  destruct (find (fun kv => if AlleleId_eq_dec id (fst kv) then true else false) (rev items))
    as [kv|] eqn:F; [|discriminate].
  intros _. apply find_some in F. destruct F as [F1 F2].
  destruct (AlleleId_eq_dec id (fst kv)); [|discriminate].
  subst id. apply in_map. apply in_rev. exact F1.
Qed.

Lemma last_assigned_In_Some (items : list (AlleleId * R)) id :
  In id (map fst items) -> exists w, last_assigned AlleleId_eq_dec items id = Some w.
Proof.
  intros HI. unfold last_assigned.
  destruct (find (fun kv => if AlleleId_eq_dec id (fst kv) then true else false) (rev items))
    as [kv|] eqn:F; [eauto|].
  exfalso. apply in_map_iff in HI. destruct HI as ([k v] & E & HI). simpl in E. subst k.
  apply in_rev in HI. pose proof (find_none _ _ F _ HI) as Q. simpl in Q.
  destruct (AlleleId_eq_dec id id); [discriminate | congruence].
Qed.

(** X5. In a constructed model the table of weights holds every locus
    identity once, with the weight of the last line that names it,
    while the default denominator counts every line, repeated
    identities included. *)
Theorem init_beta_last_line (riskiter : list Row) (m : model) :
  init riskiter None = Ok m ->
  NoDup (od_keys (beta m)) /\
  (forall id, od_get AlleleId_eq_dec (beta m) id =
              last_assigned AlleleId_eq_dec (risks m) id) /\
  (forall id, In id (od_keys (beta m)) <-> In id (map fst (risks m))) /\
  N m = INR (List.length riskiter) /\
  (List.length (beta m) <= List.length riskiter)%nat.
Proof.
  intros H. pose proof (init_beta_NoDup _ _ _ H) as ND.
  unfold init in H. destruct (ReadRisk riskiter) as [rs|e] eqn:E; simpl in H; [|discriminate].
  destruct (Rlt_dec 0 (INR (List.length rs))); [|discriminate].
  inversion H; subst m; clear H. simpl in *.
  pose proof (ReadRisk_length _ _ E) as L.
  assert (G : forall id, od_get AlleleId_eq_dec (od_of_list AlleleId_eq_dec rs) id =
                         last_assigned AlleleId_eq_dec rs id)
    by (intros; apply od_get_of_list).
  assert (M : forall id, In id (od_keys (od_of_list AlleleId_eq_dec rs)) <->
                         In id (map fst rs)).
  { intros id. split; intros HI.
    - destruct (od_get AlleleId_eq_dec (od_of_list AlleleId_eq_dec rs) id) as [w|] eqn:Q.
      + rewrite G in Q. exact (last_assigned_Some_In _ _ _ Q).
      + apply od_get_None in Q. contradiction.
    - destruct (od_get AlleleId_eq_dec (od_of_list AlleleId_eq_dec rs) id) as [w|] eqn:Q.
      + apply od_get_Some_In in Q. apply (in_map fst) in Q. exact Q.
      + rewrite G in Q. destruct (last_assigned_In_Some _ _ HI) as [w E'].
        rewrite E' in Q. discriminate. }
  split; [exact ND|]. split; [exact G|]. split; [exact M|]. split; [rewrite L; reflexivity|].
  assert (B : (List.length (od_keys (od_of_list AlleleId_eq_dec rs)) <=
               List.length (map fst rs))%nat).
  { apply NoDup_incl_length; [exact ND|]. intros id HI. apply M. exact HI. }
  unfold od_keys in B. rewrite !length_map in B.
  unfold Risk, odict in *. lia.
Qed.

Lemma row_get_cons_other (risk : Row) (k v name : string) :
  name <> k -> row_get ((k, v) :: risk) name = row_get risk name.
Proof.
  intros NE. unfold row_get. simpl. destruct (string_dec name k); [contradiction | reflexivity].
Qed.

(** X6. [ReadRisk] does not notice a missing [ALLELE]: the line is read
    as if the column held the text [None], which is what [str] makes of
    the missing value. *)
Theorem ReadRisk_missing_ALLELE (risk : Row) :
  row_get risk "ALLELE" = None ->
  read_risk risk = read_risk (("ALLELE", "None") :: risk).
Proof.
  intros HA. unfold read_risk, row_get_str, get_beta, row_get_val.
  rewrite !row_get_cons_other by discriminate.
  rewrite HA. unfold row_get at 10. simpl od_get.
  reflexivity.
Qed.

End WithEnv.
End RiskScoreFacts.

(** * More on class MultiRiskScore *)

Module MultiRiskScoreFacts.
Import MultiRiskScore.
Section WithEnv.
Context {Py : Python} {PS : Pksnp} {RI : Riskiter}.

(** The weights a nested dict holds. *)
Fixpoint leaves (t : tree) : list R :=
  match t with
  | Leaf beta => [beta]
  | Node d =>
      (fix children (d : list (Key * tree)) : list R :=
         match d with
         | [] => []
         | kc :: rest => leaves (snd kc) ++ children rest
         end) d
  end.

Lemma leaves_Node d : leaves (Node d) = flat_map (fun kc => leaves (snd kc)) d.
Proof. induction d as [|kc d IH]; simpl in *; [reflexivity | rewrite IH; reflexivity]. Qed.

Lemma lookup_zero_or_leaf (t : tree) :
  forall subject,
    nested_lookup t subject = 0 \/ In (nested_lookup t subject) (leaves t).
Proof.
  induction t as [b|d IH] using tree_induction; intros subject.
  - right. left. reflexivity.
  - rewrite leaves_Node. induction IH as [|[k c] d Hc Hd IHd].
    + left. reflexivity.
    + rewrite nested_lookup_cons. simpl flat_map.
      destruct (in_subject k subject).
      * destruct (Hc (exclude k subject)) as [Z|HI]; [left; exact Z|].
        right. apply in_or_app. left. exact HI.
      * destruct IHd as [Z|HI]; [left; exact Z|].
        right. apply in_or_app. right. exact HI.
Qed.

(** X9. The lookup never makes up a weight: its result is 0 or one of
    the weights the nested dict holds, so that the multi-locus part of a
    score is 0 or one of these weights divided by the denominator. *)
Theorem nested_lookup_zero_or_leaf (m : model) (gtdict : GtDict) :
  (nested_lookup (multi m) (values gtdict) = 0 \/
   In (nested_lookup (multi m) (values gtdict)) (leaves (multi m))) /\
  (calc m gtdict = RiskScore.calc (base m) gtdict \/
   exists w, In w (leaves (multi m)) /\
             calc m gtdict = RiskScore.calc (base m) gtdict + w / N m).
Proof.
  pose proof (lookup_zero_or_leaf (multi m) (values gtdict)) as H.
  split; [exact H|]. rewrite calc_split. destruct H as [Z|HI].
  - left. rewrite Z. unfold Rdiv. rewrite Rmult_0_l. lra.
  - right. eexists. split; [exact HI | reflexivity].
Qed.

(** Two subjects carry the same keys. *)
Definition same_keys (s s' : list GenoType) : Prop :=
  forall k, in_subject k s = in_subject k s'.

Lemma same_keys_exclude haplo s s' :
  same_keys s s' -> same_keys (exclude haplo s) (exclude haplo s').
Proof.
  intros H k. destruct (Key_eq_dec k haplo) as [E|NE].
  - subst k. rewrite !in_subject_exclude_same. reflexivity.
  - rewrite !in_subject_exclude_other by exact NE. apply H.
Qed.

Lemma in_subject_In k s :
  in_subject k s = true <-> exists gt, In gt s /\ k = KGeno (geno_id gt).
Proof.
  unfold in_subject. rewrite existsb_exists. split; intros (gt & HI & H); exists gt;
    (split; [exact HI|]); unfold key_matches in *;
    destruct (Key_eq_dec k (KGeno (geno_id gt))); congruence.
Qed.

(** X10. The lookup depends on the subject only through the set of
    genotype identities the subject carries: neither the order of the
    genotypes, nor repetitions, nor their alleles and dosages change
    the result. *)
Theorem nested_lookup_same_keys (t : tree) :
  forall s s',
    (forall g, In g (map geno_id s) <-> In g (map geno_id s')) ->
    nested_lookup t s = nested_lookup t s'.
Proof.
  assert (G : forall s s', same_keys s s' -> nested_lookup t s = nested_lookup t s').
  { induction t as [b|d IH] using tree_induction; intros s s' H; [reflexivity|].
    induction IH as [|[k c] d Hc Hd IHd]; [reflexivity|].
    rewrite !nested_lookup_cons. rewrite <- (H k).
    destruct (in_subject k s); [|exact IHd].
    apply Hc. apply same_keys_exclude. exact H. }
  intros s s' H. apply G. intros k.
  destruct (in_subject k s) eqn:E; symmetry.
  - apply in_subject_In in E. destruct E as (gt & HI & Hk).
    assert (HI' : In (geno_id gt) (map geno_id s')) by (apply H; apply in_map; exact HI).
    apply in_map_iff in HI'. destruct HI' as (gt' & E' & HI').
    apply in_subject_In. exists gt'. split; [exact HI' | congruence].
  - destruct (in_subject k s') eqn:E'; [|reflexivity].
    apply in_subject_In in E'. destruct E' as (gt & HI & Hk).
    assert (HI' : In (geno_id gt) (map geno_id s)) by (apply H; apply in_map; exact HI).
    apply in_map_iff in HI'. destruct HI' as (gt' & E'' & HI').
    assert (T : in_subject k s = true)
      by (apply in_subject_In; exists gt'; split; [exact HI' | congruence]).
    congruence.
Qed.

(** X11. A chain all of whose keys differ gives its weight to every
    subject that carries all of them; a chain that names a key twice
    gives 0 to every subject, since a matched genotype is not counted
    again. *)
Theorem nested_lookup_chain (keys : list Key) (beta : R) :
  (NoDup keys ->
   forall subject,
     (forall k, In k keys -> in_subject k subject = true) ->
     nested_lookup (chain keys beta) subject = beta) /\
  (~ NoDup keys -> forall subject, nested_lookup (chain keys beta) subject = 0).
Proof.
  split.
  - induction keys as [|k keys IH]; intros ND subject H; [reflexivity|].
    simpl. rewrite (H k) by (left; reflexivity).
    inversion ND as [|k' keys' NI ND']; subst.
    apply IH; [exact ND'|]. intros k' Hk'.
    rewrite in_subject_exclude_other by (intros E; subst; contradiction).
    apply H. right. exact Hk'.
  - induction keys as [|k keys IH]; intros ND subject.
    + exfalso. apply ND. constructor.
    + simpl. destruct (in_subject k subject); [|reflexivity].
      destruct (in_dec Key_eq_dec k keys) as [HI|NI].
      * apply in_split in HI. destruct HI as (pre & post & E). rewrite E.
        apply nested_lookup_chain_gap. apply in_subject_exclude_same.
      * apply IH. intros ND'. apply ND. constructor; assumption.
Qed.

Lemma follow_app l1 l2 : forall t,
  follow (l1 ++ l2) t =
  match follow l1 t with Some c => follow l2 c | None => None end.
Proof.
  induction l1 as [|k l1 IH]; intros t; simpl; [reflexivity|].
  destruct t as [b|d]; [reflexivity|].
  destruct (od_get Key_eq_dec d k); [apply IH | reflexivity].
Qed.


Lemma nested_read_at_weight make_key risk b :
  RiskScore.read_beta risk = Ok b ->
  forall keys fuel t i x,
    reads_chain make_key risk i keys ->
    follow keys t = Some (Leaf x) ->
    (List.length keys < fuel)%nat ->
    nested_read make_key fuel risk t i = Raise AssertionError.
Proof.
  intros Hb. induction keys as [|k keys IH]; intros fuel t i x HR HF HL.
  - destruct fuel as [|fuel]; [simpl in HL; lia|].
    simpl in HR, HF. inversion HF; subst t. simpl. rewrite HR.
    rewrite (terminal_read_beta _ (Leaf x) _ Hb). simpl.
    rewrite andb_false_r. reflexivity.
  - destruct fuel as [|fuel]; [simpl in HL; lia|].
    destruct HR as [HS HR]. simpl nested_read. rewrite HS.
    destruct t as [y|d]; [discriminate|]. simpl in HF.
    destruct (od_get Key_eq_dec d k) as [c|] eqn:G; [|discriminate].
    simpl from_option.
    rewrite (IH fuel c (S i) x HR HF) by (simpl in HL; lia). reflexivity.
Qed.



(** X13. The same line twice: once a line went in, reading it again
    fails. *)
Theorem read_lines_same_line_twice
  (make_key : option string -> string -> string -> Row -> nat -> result Key)
  (column : string) (risk : Row) (rest : list Row) (t : tree) (keys : list Key) (b : R) :
  row_truthy risk column = true ->
  reads_chain make_key risk 1 keys ->
  path_clear keys t = true ->
  (List.length keys < recursion_limit)%nat ->
  RiskScore.read_beta risk = Ok b -> b <> 0 ->
  read_lines make_key column [risk] t = Ok (insert_chain keys b t) /\
  read_lines make_key column (risk :: risk :: rest) t = Raise AssertionError.
Proof.
  intros HT HR HP HL Hb NZ. split.
  - rewrite (read_lines_inserts make_key column risk [] t keys b HT HR HP HL Hb NZ).
    reflexivity.
  - rewrite (read_lines_inserts make_key column risk _ t keys b HT HR HP HL Hb NZ).
    simpl read_lines. rewrite HT.
    rewrite (nested_read_at_weight make_key risk b Hb keys _ _ _ b HR
               (follow_insert_chain b keys t HP) HL).
    reflexivity.
Qed.

Lemma nested_read_weight_root make_key : forall fuel risk x i t',
  nested_read make_key fuel risk (Leaf x) i <> Ok t'.
Proof.
  intros fuel risk x i t'. destruct fuel as [|fuel]; simpl; [discriminate|].
  destruct (read_step make_key risk i) as [k| |e]; [discriminate| |discriminate].
  unfold terminal. destruct (get_beta risk) as [v|e]; simpl; [|discriminate].
  destruct (float v) as [b|e]; simpl; [|discriminate].
  rewrite andb_false_r. discriminate.
Qed.

(** X14. A line whose first column is filled but whose first key does
    not resolve puts its weight in the place of the whole nested dict,
    whatever the dict held; every subject then gets this weight, and no
    further line can be read. *)
Theorem read_lines_weight_for_root
  (make_key : option string -> string -> string -> Row -> nat -> result Key)
  (column : string) (risk : Row) (d : list (Key * tree)) (b : R) :
  row_truthy risk column = true ->
  read_step make_key risk 1 = Terminal ->
  RiskScore.read_beta risk = Ok b -> b <> 0 ->
  (0 < recursion_limit)%nat ->
  read_lines make_key column [risk] (Node d) = Ok (Leaf b) /\
  (forall subject, nested_lookup (Leaf b) subject = b) /\
  (forall risk' rest,
      row_truthy risk' column = true ->
      is_ok (read_lines make_key column (risk :: risk' :: rest) (Node d)) = false).
Proof.
  intros HT HS Hb NZ HL.
  assert (E : nested_read make_key recursion_limit risk (Node d) 1 = Ok (Leaf b)).
  { destruct recursion_limit as [|fuel]; [lia|]. simpl. rewrite HS.
    rewrite (terminal_read_beta _ (Node d) _ Hb), truthy_true by exact NZ. reflexivity. }
  split; [|split].
  - simpl. rewrite HT, E. reflexivity.
  - reflexivity.
  - intros risk' rest HT'. simpl read_lines. rewrite HT, E. simpl bind. rewrite HT'.
    destruct (nested_read make_key recursion_limit risk' (Leaf b) 1) as [t'|e] eqn:E';
      [|reflexivity].
    exfalso. exact (nested_read_weight_root _ _ _ _ _ _ E').
Qed.

(** X15. A chain read later takes the place of all longer chains read
    before that begin with it: its weight is stored where the chain ends
    and nothing is left below; and the keys of the root keep their
    order, a new first key going last. *)
Theorem nested_read_replaces_longer_chains
  (make_key : option string -> string -> string -> Row -> nat -> result Key)
  (risk : Row) (d : list (Key * tree)) (k : Key) (keys : list Key) (b : R) :
  reads_chain make_key risk 1 (k :: keys) ->
  path_clear (k :: keys) (Node d) = true ->
  (List.length (k :: keys) < recursion_limit)%nat ->
  RiskScore.read_beta risk = Ok b -> b <> 0 ->
  exists d',
    nested_read make_key recursion_limit risk (Node d) 1 = Ok (Node d') /\
    follow (k :: keys) (Node d') = Some (Leaf b) /\
    (forall k' more, follow ((k :: keys) ++ k' :: more) (Node d') = None) /\
    od_keys d' = (if od_mem Key_eq_dec d k then od_keys d else od_keys d ++ [k]) /\
    (forall k', k' <> k -> od_get Key_eq_dec d' k' = od_get Key_eq_dec d k').
Proof.
  intros HR HP HL Hb NZ.
  destruct (insert_chain_keys k keys b d) as (d' & E & HK).
  exists d'. rewrite <- E.
  split; [exact (nested_read_inserts make_key risk b Hb NZ (k :: keys) _ _ _ HR HP HL)|].
  pose proof (follow_insert_chain b (k :: keys) (Node d) HP) as F.
  split; [exact F|]. split; [|split].
  - intros k' more. rewrite follow_app, F. reflexivity.
  - exact HK.
  - intros k' NE. simpl in E. inversion E. apply od_get_set_other. exact NE.
Qed.

Lemma read_lines_all_skipped make_key column : forall risk_iter t,
  (forall risk, In risk risk_iter -> row_truthy risk column = false) ->
  read_lines make_key column risk_iter t = Ok t.
Proof.
  induction risk_iter as [|risk rest IH]; intros t H; [reflexivity|].
  simpl. rewrite (H risk) by (left; reflexivity).
  apply IH. intros r Hr. apply H. right. exact Hr.
Qed.

(** X16. With a multi-locus file none of whose lines has a [GENOTYPE_1],
    an empty file included, the nested dict stays empty and the score of
    every subject is the linear score. *)
Theorem calc_without_genotype_lines (risks multirisks : list Row) (N_override : option R)
  (m : model) :
  (forall risk, In risk multirisks -> row_truthy risk "GENOTYPE_1" = false) ->
  init risks multirisks N_override = Ok m ->
  multi m = Node [] /\
  RiskScore.init risks N_override = Ok (base m) /\
  forall gtdict, calc m gtdict = RiskScore.calc (base m) gtdict.
Proof.
  intros H HI. unfold init, init_with in HI.
  destruct (RiskScore.init risks N_override) as [b0|e]; simpl in HI; [|discriminate].
  unfold ReadMultiRisk in HI. rewrite (read_lines_all_skipped _ _ _ _ H) in HI.
  simpl in HI. inversion HI; subst m; clear HI. simpl.
  split; [reflexivity|]. split; [reflexivity|].
  intros gtdict. rewrite calc_split. simpl. unfold Rdiv. rewrite Rmult_0_l. lra.
Qed.

End WithEnv.
End MultiRiskScoreFacts.

(** * More on the two policies *)

Module PolicyFacts.
Import MultiRiskScore.
Import MultiRiskScoreFacts.
Section WithEnv.
Context {Py : Python} {PS : Pksnp} {RI : Riskiter}.

(** X18. [sharp2019] checks the denominator of the linear model before
    it sets its own: an override that is not positive, and an empty
    weights file without override, make the construction fail, although
    the denominator is 1 in the end; a positive override has no effect
    at all. *)
Theorem sharp2019_override_checked_then_dropped (risks multirisks : list Row)
  (rs : list RiskScore.Risk) :
  RiskScore.ReadRisk risks = Ok rs ->
  (forall n, ~ 0 < n ->
     sharp2019.init risks multirisks (Some n) = Raise AssertionError) /\
  (rs = [] -> sharp2019.init risks multirisks None = Raise AssertionError) /\
  (forall n n', 0 < n -> 0 < n' ->
     sharp2019.init risks multirisks (Some n) = sharp2019.init risks multirisks (Some n')).
Proof.
  intros HR. unfold sharp2019.init, init_with, RiskScore.init. rewrite HR. simpl.
  split; [|split].
  - intros n Hn. rewrite Rlt_dec_false by exact Hn. reflexivity.
  - intros E. subst rs. simpl. rewrite Rlt_dec_false by lra. reflexivity.
  - intros n n' Hn Hn'. rewrite !Rlt_dec_true by assumption. simpl.
    destruct (sharp2019.ReadMultiRisk multirisks); reflexivity.
Qed.

(** A nested dict of single alleles, each with its weight. *)
Definition allele_table (entries : list (AlleleId * R)) : tree :=
  Node (map (fun e => (KAllele (fst e), Leaf (snd e))) entries).

Lemma lookup_allele_table entries subject :
  MultiRiskScore.nested_lookup (allele_table entries) subject = 0.
Proof.
  apply nested_lookup_no_match. intros k HI. unfold allele_table, od_keys in HI.
  rewrite map_map in HI. apply in_map_iff in HI. destruct HI as (e & E & _).
  simpl in E. subst k. apply in_subject_allele.
Qed.

(** X19. When the nested dict holds single alleles only, the collection
    of [sharp2019] is the list of the weights of the alleles the subject
    carries, in the order of the file, so that the score adds the
    weights of the first two such alleles of the file and leaves out
    those of any further one. *)
Theorem sharp2019_allele_table (entries : list (AlleleId * R)) (subject : list GenoType) :
  sharp2019.nested_lookup (allele_table entries) subject =
    map snd (filter (fun e => sharp2019.in_alleles (KAllele (fst e))
                                (flat_map getAllelesTrue subject)) entries) /\
  forall b gtdict,
    subject = values gtdict ->
    sharp2019.calc {| base := b; multi := allele_table entries |} gtdict =
    RiskScore.calc b gtdict +
    Rsum (firstn 2 (map snd (filter (fun e => sharp2019.in_alleles (KAllele (fst e))
                                               (flat_map getAllelesTrue subject)) entries)))
    / RiskScore.N b.
Proof.
  assert (E : sharp2019.nested_lookup (allele_table entries) subject =
    map snd (filter (fun e => sharp2019.in_alleles (KAllele (fst e))
                                (flat_map getAllelesTrue subject)) entries)).
  { unfold allele_table.
    rewrite sharp2019.nested_lookup_Node by apply (lookup_allele_table entries subject).
    induction entries as [|[a w] entries IH]; [reflexivity|].
    cbn [map flat_map fst snd filter].
    destruct (sharp2019.in_alleles (KAllele a) (flat_map getAllelesTrue subject)).
    - rewrite sharp2019.nested_lookup_Leaf. cbn [map snd app]. rewrite IH. reflexivity.
    - exact IH. }
  split; [exact E|].
  intros b gtdict Hs. subst subject. unfold sharp2019.calc. simpl multi. simpl base.
  rewrite E, sharp2019.sum_Rsum. unfold N. simpl.
  destruct (truthy _) eqn:T; [reflexivity|].
  match goal with |- _ = _ + ?x / _ =>
    destruct (Req_dec_T x 0) as [Z|NZ];
      [rewrite Z | rewrite truthy_true in T by exact NZ; discriminate]
  end.
  unfold Rdiv. rewrite Rmult_0_l. lra.
Qed.

Lemma collection_leaves (t : tree) : forall subject x,
  In x (sharp2019.nested_lookup t subject) -> In x (leaves t).
Proof.
  induction t as [b|d IH] using tree_induction; intros subject x HI.
  - rewrite sharp2019.nested_lookup_Leaf in HI. exact HI.
  - destruct (Req_dec_T (MultiRiskScore.nested_lookup (Node d) subject) 0) as [Z|NZ].
    + rewrite (sharp2019.nested_lookup_Node _ _ Z) in HI. rewrite leaves_Node.
      apply in_flat_map in HI. destruct HI as (kc & Hkc & HI).
      apply in_flat_map. exists kc. split; [exact Hkc|].
      destruct (sharp2019.in_alleles _ _); [|contradiction].
      rewrite Forall_forall in IH. exact (IH kc Hkc subject x HI).
    + rewrite (sharp2019.nested_lookup_match _ _ NZ) in HI.
      destruct HI as [E|[]]. subst x.
      destruct (lookup_zero_or_leaf (Node d) subject) as [Z|L]; [contradiction | exact L].
Qed.

(** X20. The collection of [sharp2019] holds weights of the nested dict
    only, and what its score adds to the linear score is 0, one of
    these weights, or the sum of two of them. *)
Theorem sharp2019_adds_stored_weights (m : model) (gtdict : GtDict) :
  N m = 1 ->
  (forall x, In x (sharp2019.nested_lookup (multi m) (values gtdict)) ->
             In x (leaves (multi m))) /\
  (sharp2019.calc m gtdict = RiskScore.calc (base m) gtdict \/
   (exists w, In w (leaves (multi m)) /\
              sharp2019.calc m gtdict = RiskScore.calc (base m) gtdict + w) \/
   (exists w1 w2, In w1 (leaves (multi m)) /\ In w2 (leaves (multi m)) /\
              sharp2019.calc m gtdict = RiskScore.calc (base m) gtdict + (w1 + w2))).
Proof.
  intros HN.
  pose proof (collection_leaves (multi m) (values gtdict)) as L.
  split; [exact L|].
  assert (C : sharp2019.calc m gtdict =
              RiskScore.calc (base m) gtdict +
              Rsum (firstn 2 (sharp2019.nested_lookup (multi m) (values gtdict)))).
  { unfold sharp2019.calc. rewrite sharp2019.sum_Rsum, HN.
    destruct (truthy _) eqn:T; [lra|].
    match goal with |- _ = _ + ?x =>
      destruct (Req_dec_T x 0) as [Z|NZ];
        [rewrite Z; lra | rewrite truthy_true in T by exact NZ; discriminate]
    end. }
  rewrite C.
  destruct (sharp2019.nested_lookup (multi m) (values gtdict)) as [|w1 [|w2 l]].
  - left. simpl. lra.
  - right. left. exists w1. split; [apply L; left; reflexivity | simpl; lra].
  - right. right. exists w1, w2.
    split; [apply L; left; reflexivity|].
    split; [apply L; right; left; reflexivity | simpl; lra].
Qed.

End WithEnv.
End PolicyFacts.

(** * class PGSCatalog *)

Module PGSCatalog.
Import RiskScore.
Import RiskScoreFacts.
Section WithEnv.
Context {Py : Python} {PS : Pksnp}.

(** [__init__] hands the list [risks] to [RiskScore.__init__], and so
    to [ReadRisk]: a list has no [get] method. *)
Definition a_list : Riskiter := {| riskiter_has_get := false |}.
#[local] Existing Instance a_list.

(** A line of a scoring file of the PGS Catalog, with the columns the
    format requires and the optional [rsID]. *)
Record PgsLine : Type := mkPgsLine {
  rsID : option string;
  chr_name : string;
  chr_position : string;
  effect_allele : string;
  effect_weight : string
}.

(** The dict [risk] the loop of [__init__] builds from a line.  Its
    [RSID] is [None] for a line without [rsID]; no reader looks at
    [RSID], and the entry is left out then. *)
Definition pgs_risk (line : PgsLine) : Row :=
  match rsID line with
  | Some id => [("RSID", id)]
  | None => []
  end ++
  [("CHROM", chr_name line); ("POS", chr_position line);
   ("ALLELE", effect_allele line); ("BETA", effect_weight line)].

(** [not risks] *)
Definition is_empty {A : Type} (l : list A) : bool :=
  match l with [] => true | _ :: _ => false end.

(** [PGSCatalog.__init__(pgs, risks=[], N=None)].  The default of
    [risks] is one list object, made when the class is defined and
    shared by all calls that leave [risks] out; the loop appends to it.
    [default_risks] is what this object holds when the call starts; the
    second component of the result is what it holds afterwards. *)
Definition init (default_risks : list Row) (pgs : list PgsLine)
  (risks : option (list Row)) (N_override : option R)
  : result model * list Row :=
  let risks0 := match risks with Some given => given | None => default_risks end in
  let risks1 := if is_empty risks0 then risks0 ++ map pgs_risk pgs else risks0 in
  (RiskScore.init risks1 N_override,
   match risks with Some _ => default_risks | None => risks1 end).



(** X22. The default of [risks] is kept from one construction to the
    next: after a first catalogue that is not empty was loaded, a second
    construction that leaves [risks] out does not read its own
    catalogue at all and builds the model of the first one again. *)
Theorem PGSCatalog_default_is_shared (pgs1 pgs2 : list PgsLine) (N_override : option R) :
  pgs1 <> [] ->
  init (snd (init [] pgs1 None N_override)) pgs2 None N_override =
  init [] pgs1 None N_override.
Proof.
  intros NE. unfold init. simpl.
  destruct pgs1 as [|line pgs1]; [contradiction|]. reflexivity.
Qed.

End WithEnv.
End PGSCatalog.

(** * More worked examples *)

Module MoreExamples.
Import MultiRiskScore.
Import MultiRiskScoreFacts.
Import Examples.

Definition ex_posid_line : Row :=
  [("POSID", "chr1"); ("CHROM", "1"); ("POS", "100"); ("ALLELE", "A"); ("BETA", "0.5")].

Lemma ReadRisk_POSID_without_separator_witness :
  RiskScore.read_risk ex_posid_line = Raise IndexError /\
  RiskScore.ReadRisk [ex_posid_line] = Raise IndexError.
Proof.
  apply (RiskScoreFacts.ReadRisk_POSID_without_separator ex_posid_line [] "chr1");
    reflexivity.
Defined.

Definition ex_colon_line : Row := [("POSID", "1:100"); ("ALLELE", "A"); ("BETA", "0.5")].
Definition ex_underscore_line : Row := [("POSID", "1_100"); ("ALLELE", "A"); ("BETA", "0.5")].

Lemma ReadRisk_POSID_parts_witness :
  RiskScore.read_risk ex_colon_line = RiskScoreFacts.build_risk ex_colon_line "1" "100" /\
  RiskScore.read_risk ex_underscore_line =
    RiskScoreFacts.build_risk ex_underscore_line "1_100" "100".
Proof.
  split.
  - apply (proj1 (RiskScoreFacts.ReadRisk_POSID_parts ex_colon_line "1" "100"
                    eq_refl eq_refl eq_refl eq_refl)).
    reflexivity.
  - apply (proj2 (RiskScoreFacts.ReadRisk_POSID_parts ex_underscore_line "1" "100"
                    eq_refl eq_refl eq_refl eq_refl)).
    reflexivity.
Defined.

Definition ex_no_position_line : Row := [("ALLELE", "A"); ("BETA", "0.5")].

Lemma ReadRisk_without_position_witness :
  RiskScore.read_risk ex_no_position_line = Raise SystemExit /\
  RiskScore.ReadRisk [ex_no_position_line] = Raise SystemExit.
Proof.
  apply (RiskScoreFacts.ReadRisk_without_position ex_no_position_line []
           (row_get_val ex_no_position_line "BETA" (VFloat 0))).
  - reflexivity.
  - reflexivity.
  - reflexivity.
  - apply get_beta_no_odds. reflexivity.
Defined.

Lemma ReadRisk_all_or_first_error_witness :
  RiskScore.ReadRisk (ex_weights ++ [ex_zero_odds]) = Raise ValueError.
Proof.
  apply (proj2 RiskScoreFacts.ReadRisk_all_or_first_error
           ex_weights ex_risks ex_zero_odds ValueError []).
  - apply (proj1 RiskScoreFacts.ReadRisk_all_or_first_error). exact ex_ReadRisk.
  - apply (RiskScore.read_risk_bad_odds ex_zero_odds "0"); [reflexivity | reflexivity|].
    right. exists 0. split; [reflexivity | lra].
Defined.

(** The two lines of the first scenario and a third one that names the
    allele of the first again, with another weight. *)
Definition ex_repeated : list Row :=
  [ [("CHROM", "1"); ("POS", "100"); ("ALLELE", "A"); ("BETA", "0.5")];
    [("CHROM", "2"); ("POS", "200"); ("ALLELE", "G"); ("BETA", "-0.2")];
    [("CHROM", "1"); ("POS", "100"); ("ALLELE", "A"); ("BETA", "2.0")] ].

Definition ex_repeated_risks : list RiskScore.Risk := ex_risks ++ [(a1, 2)].

Lemma ex_repeated_ReadRisk : RiskScore.ReadRisk ex_repeated = Ok ex_repeated_risks.
Proof.
  unfold ex_repeated, RiskScore.ReadRisk, RiskScore.read_risk.
  rewrite !get_beta_no_odds by reflexivity.
  reflexivity.
Qed.

Definition ex_repeated_model : RiskScore.model :=
  {| RiskScore.risks := ex_repeated_risks;
     RiskScore.beta := od_of_list AlleleId_eq_dec ex_repeated_risks;
     RiskScore.N := INR 3 |}.

Lemma ex_repeated_init : RiskScore.init ex_repeated None = Ok ex_repeated_model.
Proof.
  rewrite (RiskScore.init_ok ex_repeated None ex_repeated_risks ex_repeated_ReadRisk)
    by (simpl; lra).
  reflexivity.
Qed.

Lemma init_beta_last_line_witness :
  RiskScore.init ex_repeated None = Ok ex_repeated_model /\
  RiskScore.N ex_repeated_model = INR 3 /\
  od_get AlleleId_eq_dec (RiskScore.beta ex_repeated_model) a1 = Some 2 /\
  (List.length (RiskScore.beta ex_repeated_model) <= 3)%nat.
Proof.
  split; [exact ex_repeated_init|].
  destruct (RiskScoreFacts.init_beta_last_line ex_repeated ex_repeated_model ex_repeated_init)
    as (_ & HG & _ & HN & HL).
  split; [exact HN|]. split; [|exact HL].
  rewrite HG. reflexivity.
Defined.

Definition ex_no_allele_line : Row := [("CHROM", "1"); ("POS", "100"); ("BETA", "0.5")].

Lemma ReadRisk_missing_ALLELE_witness :
  RiskScore.read_risk ex_no_allele_line =
  RiskScore.read_risk (("ALLELE", "None") :: ex_no_allele_line).
Proof.
  apply (RiskScoreFacts.ReadRisk_missing_ALLELE ex_no_allele_line). reflexivity.
Defined.

Lemma nested_lookup_same_keys_witness :
  nested_lookup ex_tree [gt2; gt1; gt1] = nested_lookup ex_tree (values ex_subject).
Proof.
  apply (nested_lookup_same_keys ex_tree [gt2; gt1; gt1] (values ex_subject)).
  intros g. simpl. tauto.
Defined.

Lemma nested_lookup_chain_witness :
  nested_lookup (chain [G1; G2] 1) (values ex_subject) = 1 /\
  nested_lookup (chain [G1; G1] 1) (values ex_subject) = 0.
Proof.
  split.
  - apply (proj1 (nested_lookup_chain [G1; G2] 1)).
    + apply NoDup_cons; [simpl; intros [H|[]]; discriminate H|].
      apply NoDup_cons; [simpl; tauto | apply NoDup_nil].
    + intros k [H|[H|[]]]; subst k; reflexivity.
  - apply (proj2 (nested_lookup_chain [G1; G1] 1)).
    intros ND. inversion ND as [|k l NI _]. apply NI. left. reflexivity.
Defined.




Lemma read_lines_same_line_twice_witness :
  read_lines geno_key "GENOTYPE_1" [ex_multi_line] (Node []) = Ok ex_tree /\
  read_lines geno_key "GENOTYPE_1" [ex_multi_line; ex_multi_line] (Node []) =
    Raise AssertionError.
Proof.
  apply (read_lines_same_line_twice geno_key "GENOTYPE_1" ex_multi_line [] (Node [])
           [G1; G2] 1 eq_refl ex_reads_chain eq_refl).
  - simpl. lia.
  - exact ex_read_beta.
  - lra.
Defined.

(** A line whose [GENOTYPE_1] is no pair. *)
Definition ex_half_genotype_line : Row :=
  [("CHROM_1", "1"); ("POS_1", "100"); ("GENOTYPE_1", "A"); ("BETA", "1.0")].

Lemma read_lines_weight_for_root_witness :
  read_lines geno_key "GENOTYPE_1" [ex_half_genotype_line] ex_tree = Ok (Leaf 1) /\
  is_ok (read_lines geno_key "GENOTYPE_1" [ex_half_genotype_line; ex_multi_line] ex_tree)
    = false.
Proof.
  destruct (read_lines_weight_for_root geno_key "GENOTYPE_1" ex_half_genotype_line
              [(G1, chain [G2] 1)] 1 eq_refl eq_refl) as (H1 & _ & H3).
  - apply (RiskScore.read_beta_BETA ex_half_genotype_line "1.0" 1); reflexivity.
  - lra.
  - simpl. lia.
  - split; [exact H1|]. apply (H3 ex_multi_line []). reflexivity.
Defined.

(** A line with the first key of [ex_multi_line] only. *)
Definition ex_short_line : Row :=
  [("CHROM_1", "1"); ("POS_1", "100"); ("GENOTYPE_1", "A:A"); ("BETA", "0.5")].

Lemma nested_read_replaces_longer_chains_witness :
  follow [G1; G2] ex_tree = Some (Leaf 1) /\
  exists d',
    nested_read geno_key recursion_limit ex_short_line ex_tree 1 = Ok (Node d') /\
    follow [G1] (Node d') = Some (Leaf (1/2)) /\
    follow [G1; G2] (Node d') = None /\
    od_keys d' = [G1].
Proof.
  split; [reflexivity|].
  destruct (nested_read_replaces_longer_chains geno_key ex_short_line
              [(G1, chain [G2] 1)] G1 [] (1/2))
    as (d' & H1 & H2 & H3 & H4 & _).
  - simpl. repeat split; reflexivity.
  - reflexivity.
  - simpl. lia.
  - apply (RiskScore.read_beta_BETA ex_short_line "0.5" (1/2)); reflexivity.
  - lra.
  - exists d'. split; [exact H1|]. split; [exact H2|]. split; [exact (H3 G2 [])|].
    rewrite H4. reflexivity.
Defined.

Lemma ex_linear_init :
  MultiRiskScore.init ex_weights [ex_blank_line] None =
  Ok {| base := ex_model 2; multi := Node [] |}.
Proof.
  unfold MultiRiskScore.init, init_with. rewrite ex_init. reflexivity.
Qed.

Lemma calc_without_genotype_lines_witness :
  MultiRiskScore.init ex_weights [ex_blank_line] None =
    Ok {| base := ex_model 2; multi := Node [] |} /\
  calc {| base := ex_model 2; multi := Node [] |} ex_subject =
    RiskScore.calc (ex_model 2) ex_subject.
Proof.
  split; [exact ex_linear_init|].
  destruct (calc_without_genotype_lines ex_weights [ex_blank_line] None
              {| base := ex_model 2; multi := Node [] |}) as (_ & _ & H).
  - intros risk [E|[]]. subst risk. reflexivity.
  - exact ex_linear_init.
  - exact (H ex_subject).
Defined.

Lemma sharp2019_override_checked_then_dropped_witness :
  sharp2019.init ex_weights ex_sharp_lines (Some 0) = Raise AssertionError /\
  sharp2019.init ex_weights ex_sharp_lines (Some 1) =
    sharp2019.init ex_weights ex_sharp_lines (Some 2).
Proof.
  destruct (PolicyFacts.sharp2019_override_checked_then_dropped ex_weights ex_sharp_lines
              ex_risks ex_ReadRisk) as (H1 & _ & H3).
  split; [apply H1; lra | apply H3; lra].
Defined.

Lemma sharp2019_adds_stored_weights_witness :
  sharp2019.calc ex_sharp ex_subject = RiskScore.calc (base ex_sharp) ex_subject \/
  (exists w, In w (leaves (multi ex_sharp)) /\
             sharp2019.calc ex_sharp ex_subject =
             RiskScore.calc (base ex_sharp) ex_subject + w) \/
  (exists w1 w2, In w1 (leaves (multi ex_sharp)) /\ In w2 (leaves (multi ex_sharp)) /\
             sharp2019.calc ex_sharp ex_subject =
             RiskScore.calc (base ex_sharp) ex_subject + (w1 + w2)).
Proof.
  exact (proj2 (PolicyFacts.sharp2019_adds_stored_weights ex_sharp ex_subject eq_refl)).
Defined.

Definition ex_pgs_line (weight : string) : PGSCatalog.PgsLine :=
  {| PGSCatalog.rsID := Some "rs1";
     PGSCatalog.chr_name := "1";
     PGSCatalog.chr_position := "100";
     PGSCatalog.effect_allele := "A";
     PGSCatalog.effect_weight := weight |}.




Lemma PGSCatalog_default_is_shared_witness :
  PGSCatalog.init (snd (PGSCatalog.init [] [ex_pgs_line "0.5"] None None))
    [ex_pgs_line "2.0"] None None =
  PGSCatalog.init [] [ex_pgs_line "0.5"] None None.
Proof.
  apply (PGSCatalog.PGSCatalog_default_is_shared [ex_pgs_line "0.5"] [ex_pgs_line "2.0"] None).
  discriminate.
Defined.

End MoreExamples.
